(** * gallery_dl.extractor.pixiv: metadata resolution and the App API client

    A shallow embedding of [src/gallery_dl/extractor/pixiv.py]:
    the loop body of [PixivExtractor.items], the constructor of
    [PixivRankingExtractor], and [PixivAppAPI._call] / [_pagination].

    Python dictionaries are finite maps from strings to JSON-shaped values,
    exceptions are an explicit error result, and the mutable objects the
    code works on (the [work] dictionary, the API session, the log) are
    threaded through a small state-and-error monad.  A string holds the
    UTF-8 encoding of the Python text, one [ascii] per byte: [len],
    slices and iteration go by characters, and [str.lower] and
    [str.isdecimal] are taken from the Unicode database of the
    interpreter, which the model has as a parameter. *)

From Stdlib Require Import Ascii.
From stdpp Require Import gmap strings list fin_maps pretty.

#[local] Set Warnings "-register-all".
#[local] Open Scope string_scope.

(** ** Python values *)

(** What [response.json()] can return.  Numbers are the integers; JSON
    floats do not occur in the fields the extractor reads. *)
Inductive value : Type :=
  | VNone
  | VBool (b : bool)
  | VInt (z : Z)
  | VStr (s : string)
  | VList (l : list value)
  | VDict (d : gmap string value).

Abbreviation dict := (gmap string value).

Inductive exn : Type :=
  | KeyError (key : string)
  | TypeError
  | AttributeError
  | ValueError
  | AuthenticationError
  | NotFoundError (what : string)
  | StopExtraction
  | TransportError
  | Unmodelled.   (* not raised by Python: the model does not go further *)

Inductive result (A : Type) : Type :=
  | Ok (a : A)
  | Raise (e : exn).
Arguments Ok {A} a.
Arguments Raise {A} e.

(** [bool(v)]: Python truthiness. *)
Definition truthy (v : value) : bool :=
  match v with
  | VNone => false
  | VBool b => b
  | VInt z => negb (z =? 0)%Z
  | VStr s => negb (String.eqb s "")
  | VList l => match l with [] => false | _ => true end
  | VDict d => negb (size d =? 0)%nat
  end.

(** [v == s] for a string literal [s]. *)
Definition eq_str (v : value) (s : string) : bool :=
  match v with
  | VStr t => String.eqb t s
  | _ => false
  end.

(** [v == n] for an integer literal [n]; [True == 1] and [False == 0]
    hold in Python. *)
Definition eq_int (v : value) (n : Z) : bool :=
  match v with
  | VInt z => (z =? n)%Z
  | VBool b => ((if b then 1 else 0) =? n)%Z
  | _ => false
  end.

(** [v[key]] for a string key: only dictionaries can be subscripted by a
    string. *)
Definition getitem (v : value) (key : string) : result value :=
  match v with
  | VDict d => match d !! key with
               | Some x => Ok x
               | None => Raise (KeyError key)
               end
  | _ => Raise TypeError
  end.

(** [str(v)] as used by [str.format]; the [repr] of lists and
    dictionaries is outside the model. *)
Definition py_str (v : value) : result string :=
  match v with
  | VNone => Ok "None"
  | VBool true => Ok "True"
  | VBool false => Ok "False"
  | VInt z => Ok (pretty z)
  | VStr s => Ok s
  | VList _ | VDict _ => Raise Unmodelled
  end.

(** ** String built-ins *)

(** A byte of the form [10xxxxxx]: in UTF-8 it goes on with the character
    begun before it. *)
Definition continuation (c : ascii) : bool :=
  let n := nat_of_ascii c in (128 <=? n)%nat && (n <? 192)%nat.

Definition starts_continuation (s : string) : bool :=
  match s with
  | EmptyString => false
  | String c _ => continuation c
  end.

(** The characters of [s], by which Python counts, slices and iterates:
    each is a byte together with the continuation bytes after it. *)
Fixpoint chars (s : string) : list string :=
  match s with
  | EmptyString => []
  | String c s' =>
      match chars s' with
      | ch :: rest =>
          if starts_continuation ch then String c ch :: rest
          else String c EmptyString :: ch :: rest
      | [] => [String c EmptyString]
      end
  end.

(** ["".join(cs)] *)
Definition str_join (cs : list string) : string :=
  foldr String.append EmptyString cs.

(** [len(s)] *)
Definition len (s : string) : nat := length (chars s).

(** [s[i:j]] for bounds [0 <= i <= j]. *)
Definition slice (i j : nat) (s : string) : string :=
  str_join (firstn (j - i) (skipn i (chars s))).

(** [iter(v)]: the elements a [for] loop or comprehension walks through.
    A dictionary iterates over its keys (here in the order of the finite
    map, Python uses insertion order). *)
Definition py_iter (v : value) : result (list value) :=
  match v with
  | VList l => Ok l
  | VStr s => Ok (VStr <$> chars s)
  | VDict d => Ok ((λ kv, VStr kv.1) <$> map_to_list d)
  | _ => Raise TypeError
  end.

Fixpoint startswith (p s : string) : bool :=
  match p, s with
  | EmptyString, _ => true
  | String a p', String b s' => Ascii.eqb a b && startswith p' s'
  | String _ _, EmptyString => false
  end.

(** [old in s]. *)
Fixpoint contains (old s : string) : bool :=
  startswith old s ||
  match s with
  | EmptyString => false
  | String _ s' => contains old s'
  end.

(** [s.find(old)]. *)
Fixpoint find (old s : string) : option nat :=
  if startswith old s then Some 0
  else match s with
       | EmptyString => None
       | String _ s' => S <$> find old s'
       end.

Fixpoint take (n : nat) (s : string) : string :=
  match n, s with
  | S n', String c s' => String c (take n' s')
  | _, _ => EmptyString
  end.

Fixpoint drop (n : nat) (s : string) : string :=
  match n, s with
  | S n', String _ s' => drop n' s'
  | _, _ => s
  end.

(** Left-to-right scan of [str.replace] for a non-empty [old]: [skip]
    counts the characters of a match that are still to be passed over. *)
Fixpoint replace_scan (old new : string) (skip : nat) (s : string) : string :=
  match s with
  | EmptyString => EmptyString
  | String c s' =>
      match skip with
      | S k => replace_scan old new k s'
      | O =>
          if startswith old s
          then new +:+ replace_scan old new (String.length old - 1) s'
          else String c (replace_scan old new 0 s')
      end
  end.

(** [s.replace(old, new)]: every non-overlapping occurrence, leftmost
    first.  With an empty [old] Python puts [new] around every
    character. *)
Definition replace (old new s : string) : string :=
  match old with
  | EmptyString =>
      new +:+ String.concat "" ((λ c, c +:+ new) <$> chars s)
  | _ => replace_scan old new 0 s
  end.

Fixpoint mem_char (c : ascii) (s : string) : bool :=
  match s with
  | EmptyString => false
  | String a s' => Ascii.eqb a c || mem_char c s'
  end.

(** [s.rpartition(c)[2]] for a one-character separator: what follows the
    last [c], and all of [s] when [c] does not occur. *)
Fixpoint rpartition_tail (c : ascii) (s : string) : string :=
  match s with
  | EmptyString => EmptyString
  | String a s' =>
      if mem_char c s' then rpartition_tail c s'
      else if Ascii.eqb a c then s' else s
  end.

Definition is_digit (c : ascii) : bool :=
  let n := nat_of_ascii c in (48 <=? n)%nat && (n <=? 57)%nat.

Fixpoint all_chars (p : ascii → bool) (s : string) : bool :=
  match s with
  | EmptyString => true
  | String c s' => p c && all_chars p s'
  end.

(** One character: a byte, and continuation bytes only after it. *)
Definition character (c : string) : bool :=
  match c with
  | EmptyString => false
  | String _ t => all_chars continuation t
  end.

Definition lower_char (c : ascii) : ascii :=
  let n := nat_of_ascii c in
  if (65 <=? n)%nat && (n <=? 90)%nat then ascii_of_nat (n + 32) else c.

(** Lower case as ASCII has it: [A] to [Z] folded, every other byte
    kept. *)
Fixpoint ascii_lower (s : string) : string :=
  match s with
  | EmptyString => EmptyString
  | String c s' => String (lower_char c) (ascii_lower s')
  end.

Definition is_ascii (s : string) : bool :=
  all_chars (λ c, (nat_of_ascii c <? 128)%nat) s.

(** [str.lower] and [str.isdecimal] read the Unicode database that is
    built into the interpreter.  The model takes from it the lower case
    of a text ([s.lower()], which is not a map over the characters: a
    capital sigma depends on what surrounds it) and the characters that
    are decimal digits (category Nd). *)
Class Unicode : Type := {
  lower : string → string;
  decimal : string → bool
}.

(** What is used of the database beyond its being there: on ASCII text
    it is the ASCII alphabet, and text in lower case stays as it is. *)
Class UnicodeLaws (U : Unicode) : Prop := {
  lower_on_ascii s : is_ascii s = true → lower s = ascii_lower s;
  lower_lower s : lower (lower s) = lower s;
  decimal_on_ascii c :
    is_ascii (String c EmptyString) = true →
    decimal (String c EmptyString) = is_digit c
}.

(** [s.isdecimal()]: at least one character, and decimal digits only. *)
Definition isdecimal {U : Unicode} (s : string) : bool :=
  negb (String.eqb s "") && forallb decimal (chars s).

(** ["{:02}".format(n)] for a non-negative [n]: at least two digits. *)
Definition format_02 (n : nat) : string :=
  if (n <? 10)%nat then "0" +:+ pretty n else pretty n.

(** ** State and errors *)

(** A computation over a mutable state [S] that returns a value or raises:
    the state reached is reported in both cases, as mutations and log
    lines made before a [raise] stay. *)
Definition M (S A : Type) : Type := S → S * result A.

#[global] Instance M_ret {S} : MRet (M S) := λ A a s, (s, Ok a).
#[global] Instance M_bind {S} : MBind (M S) := λ A B f m s,
  match m s with
  | (s', Ok a) => f a s'
  | (s', Raise e) => (s', Raise e)
  end.

Definition raise {S A} (e : exn) : M S A := λ s, (s, Raise e).
Definition gets {S A} (f : S → A) : M S A := λ s, (s, Ok (f s)).
Definition modify {S} (f : S → S) : M S unit := λ s, (f s, Ok tt).
Definition lift {S A} (r : result A) : M S A := λ s, (s, r).

(** A [str] method called on [v]: anything but a string has no such
    attribute. *)
Definition str_method (v : value) : result string :=
  match v with
  | VStr s => Ok s
  | _ => Raise AttributeError
  end.

(** ** The session and the log *)

Record response : Type := {
  status_code : Z;
  text : string;
  json : result value   (* [response.json()], [ValueError] on a bad body *)
}.

(** What the client does to the outside, in the order it does it. *)
Inductive event : Type :=
  | EvLogin (username : string)
  | EvGet (url : string) (params : dict)
  | EvLogError (msg : string)
  | EvLogWarning (msg : string).

(** The collaborators of [PixivAppAPI]: the memoised [_login_impl] (its
    [cache] decorator and the POST it wraps belong to the cache service
    and the HTTP session) and [session.get].  Both act on an outside
    [World] and may raise. *)
Class Transport : Type := {
  World : Type;
  login_impl : string → string → World → World * result (value * string);
  session_get :
    string → dict → gmap string string → World → World * result response
}.

Section client.
Context {T : Transport}.

(** [PixivAppAPI]: the identity, the session headers, [user_info], and
    the log of what has been done so far. *)
Record api : Type := {
  username : string;
  password : string;
  headers : gmap string string;
  user_info : value;
  world : World;
  trace : list event
}.

Definition record (e : event) : M api unit :=
  modify (λ a, {| username := username a; password := password a;
                  headers := headers a; user_info := user_info a;
                  world := world a; trace := (trace a ++ [e])%list |}).

(** [PixivAppAPI.login] *)
Definition login : M api unit := λ a,
  let (a1, _) := record (EvLogin (username a)) a in
  match login_impl (username a1) (password a1) (world a1) with
  | (w, Ok (user, auth)) =>
      ({| username := username a1; password := password a1;
          headers := <["Authorization" := auth]> (headers a1);
          user_info := user; world := w; trace := trace a1 |}, Ok tt)
  | (w, Raise e) =>
      ({| username := username a1; password := password a1;
          headers := headers a1; user_info := user_info a1;
          world := w; trace := trace a1 |}, Raise e)
  end.

(** [self.session.get(url, params=params)] *)
Definition get (url : string) (params : dict) : M api response := λ a,
  let (a1, _) := record (EvGet url params) a in
  let (w, r) := session_get url params (headers a1) (world a1) in
  ({| username := username a1; password := password a1;
      headers := headers a1; user_info := user_info a1;
      world := w; trace := trace a1 |}, r).

(** [PixivAppAPI._call] *)
Definition _call (endpoint : string) (params : dict) : M api value :=
  let url := "https://app-api.pixiv.net/" +:+ endpoint in
  login;;
  response ← get url params;
  if (200 <=? status_code response)%Z && (status_code response <? 400)%Z
  then lift (json response)
  else if (status_code response =? 404)%Z
  then raise (NotFoundError "")
  else
    record (EvLogError ("API request failed: " +:+ text response));;
    raise StopExtraction.

(** How a generator stands after it has been driven for a while. *)
Inductive gen_end : Type :=
  | Exhausted             (* the generator returned *)
  | Raised (e : exn)      (* it raised *)
  | Suspended.            (* it has more to do *)

(** [PixivAppAPI._pagination], driven for at most [fuel] requests: the
    records yielded so far, in the order they are yielded, and how the
    generator stands. *)
Fixpoint _pagination (fuel : nat) (endpoint : string) (params : dict)
    (a : api) : api * (list value * gen_end) :=
  match fuel with
  | O => (a, ([], Suspended))
  | S fuel' =>
      match _call endpoint params a with
      | (a1, Raise e) => (a1, ([], Raised e))
      | (a1, Ok data) =>
          match getitem data "illusts" with
          | Raise e => (a1, ([], Raised e))
          | Ok illusts =>
              match py_iter illusts with
              | Raise e => (a1, ([], Raised e))
              | Ok items =>
                  match getitem data "next_url" with
                  | Raise e => (a1, (items, Raised e))
                  | Ok next_url =>
                      if negb (truthy next_url)
                      then (a1, (items, Exhausted))
                      else
                        match str_method next_url with
                        | Raise e => (a1, (items, Raised e))
                        | Ok u =>
                            let offset := VStr (rpartition_tail "=" u) in
                            let '(a2, (rest, e)) :=
                              _pagination fuel' endpoint
                                (<["offset" := offset]> params) a1 in
                            (a2, ((items ++ rest)%list, e))
                        end
                  end
              end
          end
      end
  end.

(** [PixivAppAPI.illust_ranking] *)
Definition illust_ranking (fuel : nat) (mode date : value) :
    api → api * (list value * gen_end) :=
  let params : dict := <["mode" := mode]> (<["date" := date]> ∅) in
  _pagination fuel "v1/illust/ranking" params.

(** [PixivAppAPI.ugoira_metadata] *)
Definition ugoira_metadata (illust_id : value) : M api value :=
  let params : dict := <["illust_id" := illust_id]> ∅ in
  data ← _call "v1/ugoira/metadata" params;
  lift (getitem data "ugoira_metadata").

End client.

(** ** Errors without state *)

#[global] Instance result_ret : MRet result := λ A a, Ok a.
#[global] Instance result_bind : MBind result := λ A B f r,
  match r with
  | Ok a => f a
  | Raise e => Raise e
  end.

Definition newline : string := String (ascii_of_nat 10) EmptyString.

(** ["{file} {delay}\n".format_map(frame)] *)
Definition format_frame (frame : value) : result string :=
  file ← getitem frame "file";
  f ← py_str file;
  delay ← getitem frame "delay";
  d ← py_str delay;
  mret (f +:+ " " +:+ d +:+ newline).

(** ** PixivExtractor.items *)

(** The messages of an extractor.  A [MsgUrl] hands over the [work]
    dictionary itself; the record kept here is what that dictionary holds
    at the moment of the [yield]. *)
Inductive message : Type :=
  | MsgVersion (n : Z)
  | MsgDirectory (metadata : dict)
  | MsgUrl (url : string) (metadata : dict).

Section extractor.
Context {T : Transport}.

(** The objects the loop body of [items] works on: the API client, the
    dictionary bound to [work], and the messages yielded so far. *)
Record run : Type := {
  session : api;
  work : dict;
  out : list message
}.

Definition with_work (f : dict → dict) : M run unit :=
  modify (λ r, {| session := session r; work := f (work r); out := out r |}).

(** [work[key]] *)
Definition work_get (key : string) : M run value := λ r,
  (r, getitem (VDict (work r)) key).

(** [del work[key]] *)
Definition work_del (key : string) : M run unit := λ r,
  match work r !! key with
  | Some _ => with_work (delete key) r
  | None => (r, Raise (KeyError key))
  end.

(** [work[key] = v] *)
Definition work_set (key : string) (v : value) : M run unit :=
  with_work (insert key v).

(** [work.update(other)]: the keys of [other] replace those of [work]. *)
Definition work_update (other : dict) : M run unit :=
  with_work (λ w, other ∪ w).

(** [yield Message.Url, url, work] *)
Definition yield_url (url : string) : M run unit :=
  modify (λ r, {| session := session r; work := work r;
                  out := (out r ++ [MsgUrl url (work r)])%list |}).

Definition call_api {A} (m : M api A) : M run A := λ r,
  let (a, x) := m (session r) in
  ({| session := a; work := work r; out := out r |}, x).

(** Lines 52-64: the [ugoira] branch once loading is known to be on. *)
Definition items_ugoira : M run unit :=
  id ← work_get "id";
  ugoira ← call_api (ugoira_metadata id);
  zip_urls ← lift (getitem ugoira "zip_urls");
  medium ← lift (getitem zip_urls "medium" ≫= str_method);
  let url := replace "_ugoira600x600" "_ugoira1920x1080" medium in
  work_set "extension" (VStr "zip");;
  yield_url url;;
  frames ← lift (getitem ugoira "frames" ≫= py_iter);
  lines ← lift (mapM format_frame frames);
  let framelist := String.concat "" lines in
  work_set "extension" (VStr "txt");;
  yield_url ("text:" +:+ framelist).

(** Lines 67-69: one page. *)
Definition items_single (meta_single_page : value) : M run unit :=
  url ← lift (getitem meta_single_page "original_image_url");
  u ← lift (str_method url);
  work_set "extension" (VStr (rpartition_tail "." u));;
  yield_url u.

(** Lines 72-76: [for num, img in enumerate(meta_pages)], from [num] on. *)
Fixpoint items_pages (num : nat) (pages : list value) : M run unit :=
  match pages with
  | [] => mret tt
  | img :: pages' =>
      url ← lift (getitem img "image_urls" ≫= λ i, getitem i "original");
      work_set "num" (VStr ("_p" +:+ format_02 num));;
      u ← lift (str_method url);
      work_set "extension" (VStr (rpartition_tail "." u));;
      yield_url u;;
      items_pages (S num) pages'
  end.

(** Lines 49-76: the three shapes of a work. *)
Definition items_branch (load_ugoira : bool)
    (meta_single_page meta_pages : value) : M run unit :=
  type ← work_get "type";
  if eq_str type "ugoira" then
    if negb load_ugoira then mret tt else items_ugoira
  else
    page_count ← work_get "page_count";
    if eq_int page_count 1 then items_single meta_single_page
    else
      pages ← lift (py_iter meta_pages);
      items_pages 0 pages.

(** Lines 37-76: the body of [for work in self.works()]; returning
    early is the [continue] of the source. *)
Definition items_work (load_ugoira : bool) (metadata : dict) : M run unit :=
  user ← work_get "user";
  user_id ← lift (getitem user "id");
  if negb (truthy user_id) then mret tt else
  meta_single_page ← work_get "meta_single_page";
  meta_pages ← work_get "meta_pages";
  work_del "meta_single_page";;
  work_del "image_urls";;
  work_del "meta_pages";;
  work_set "num" (VStr "");;
  tags ← work_get "tags";
  names ← lift (py_iter tags ≫= mapM (λ tag, getitem tag "name"));
  work_set "tags" (VList names);;
  work_update metadata;;
  items_branch load_ugoira meta_single_page meta_pages.

(** Resolving one fetched work on a client [a]: the messages it yields,
    what the work dictionary holds afterwards, and how the body ended. *)
Definition resolve (load_ugoira : bool) (metadata : dict) (w : dict)
    (a : api) : run * result unit :=
  items_work load_ugoira metadata {| session := a; work := w; out := [] |}.

(** [PixivExtractor.items] over the works that [self.works()] hands out,
    each keeping what is left in it once its turn is over. *)
Fixpoint items_loop (load_ugoira : bool) (metadata : dict)
    (works : list dict) (a : api) (sent : list message) :
    api * list dict * list message * result unit :=
  match works with
  | [] => (a, [], sent, Ok tt)
  | w :: works' =>
      match items_work load_ugoira metadata
              {| session := a; work := w; out := sent |} with
      | (r, Raise e) => (session r, work r :: works', out r, Raise e)
      | (r, Ok _) =>
          let '(a', ws, sent', x) :=
            items_loop load_ugoira metadata works' (session r) (out r) in
          (a', work r :: ws, sent', x)
      end
  end.

Definition items (load_ugoira : bool) (metadata : dict)
    (works : list dict) (a : api) :=
  items_loop load_ugoira metadata works a
    [MsgVersion 1; MsgDirectory metadata].

(** What a consumer that has kept the messages reads in them once the
    body is over: every [MsgUrl] of a work holds the one dictionary of
    that work, so all of them read as its last state. *)
Definition held_after (r : run) : list message :=
  (λ msg, match msg with
          | MsgUrl url _ => MsgUrl url (work r)
          | _ => msg
          end) <$> out r.

End extractor.

(** ** PixivRankingExtractor *)

Definition modes : gmap string string :=
  list_to_map
    [("daily", "day"); ("daily_r18", "day_r18"); ("weekly", "week");
     ("weekly_r18", "week_r18"); ("monthly", "month"); ("male", "day_male");
     ("male_r18", "day_male_r18"); ("female", "day_female");
     ("female_r18", "day_female_r18"); ("original", "week_original");
     ("rookie", "week_rookie"); ("r18g", "week_r18g")].

Record PixivRankingExtractor : Type := {
  mode : string;          (* [self.mode] *)
  date : string;          (* [self.date] *)
  ranking_info : dict     (* [self.ranking_info] *)
}.

Definition warning (msg : string) : M (list event) unit :=
  modify (λ log, (log ++ [EvLogWarning msg])%list).

Section ranking.
Context {U : Unicode}.

(** Lines 283-287.  Returns the checked mode name and its API value. *)
Definition init_mode (query : gmap string string) :
    M (list event) (string * string) :=
  let mode := lower (default "daily" (query !! "mode")) in
  mode ← (if bool_decide (is_Some (modes !! mode)) then mret mode
          else warning ("invalid mode '" +:+ mode +:+ "'");; mret "daily");
  match modes !! mode with
  | Some api_mode => mret (mode, api_mode)
  | None => raise (KeyError mode)
  end.

(** ["{}-{}-{}".format(date[0:4], date[4:6], date[6:8])] *)
Definition hyphenated (d : string) : string :=
  slice 0 4 d +:+ "-" +:+ slice 4 6 d +:+ "-" +:+ slice 6 8 d.

(** Lines 289-298.  [yesterday] is what
    [(datetime.utcnow() - timedelta(days=1)).strftime("%Y-%m-%d")] gives
    at the time of the call. *)
Definition init_date (yesterday : string) (query : gmap string string) :
    M (list event) string :=
  let date := query !! "date" in
  date ← match date with
         | Some d =>
             if negb (String.eqb d "") then
               if (len d =? 8)%nat && isdecimal d
               then mret (Some (hyphenated d))
               else warning ("invalid date '" +:+ d +:+ "'");; mret None
             else mret date
         | None => mret date
         end;
  match date with
  | Some d => if negb (String.eqb d "") then mret d else mret yesterday
  | None => mret yesterday
  end.

(** [PixivRankingExtractor.__init__], on the parsed query of the URL. *)
Definition __init__ (yesterday : string) (query : gmap string string) :
    M (list event) PixivRankingExtractor :=
  '(mode, api_mode) ← init_mode query;
  date ← init_date yesterday query;
  mret {| mode := api_mode; date := date;
          ranking_info := <["mode" := VStr mode]> (<["date" := VStr date]> ∅) |}.

End ranking.

(** [PixivRankingExtractor.works] *)
Definition ranking_works {T : Transport} (fuel : nat)
    (self : PixivRankingExtractor) : api → api * (list value * gen_end) :=
  illust_ranking fuel (VStr (mode self)) (VStr (date self)).

(** [PixivRankingExtractor.get_metadata] *)
Definition ranking_get_metadata (self : PixivRankingExtractor) : dict :=
  <["ranking" := VDict (ranking_info self)]> ∅.

(** ** What the record of a descriptor is made of *)

(** The fields the work itself contributes: the page keys removed, an
    empty suffix, the tags as a list of names. *)
Definition work_fields (w : dict) (names : list value) : dict :=
  <["tags" := VList names]>
    (<["num" := VStr ""]>
       (delete "meta_pages" (delete "image_urls" (delete "meta_single_page" w)))).

(** The record once [work.update(metadata)] has run. *)
Definition merged (metadata w : dict) (names : list value) : dict :=
  metadata ∪ work_fields w names.

(** The overlay order in the words of the specification: context first,
    then the fields of the work, later overlays winning. *)
Definition spec_merged (metadata w : dict) (names : list value) : dict :=
  work_fields w names ∪ metadata.

(** The keys the [get_metadata] methods of the extractors produce. *)
Definition context_keys : gset string :=
  {["user"; "user_bookmark"; "ranking"]}.

Definition policy_context (metadata : dict) : Prop :=
  dom metadata ⊆ context_keys.

(** A fetched work that passes lines 37-46: a truthy owner id, the three
    page keys, and tags that each have a name. *)
Record raw_work (w : dict) (meta_single_page meta_pages : value)
    (names : list value) : Prop := {
  rw_user : ∃ user user_id,
    w !! "user" = Some user ∧ getitem user "id" = Ok user_id
    ∧ truthy user_id = true;
  rw_single : w !! "meta_single_page" = Some meta_single_page;
  rw_pages : w !! "meta_pages" = Some meta_pages;
  rw_image_urls : is_Some (w !! "image_urls");
  rw_tags : ∃ tags,
    w !! "tags" = Some tags
    ∧ py_iter tags ≫= mapM (λ tag, getitem tag "name") = Ok names
}.

(** The original-resolution URL of one entry of [meta_pages]. *)
Definition page_url (img : value) : result value :=
  getitem img "image_urls" ≫= λ i, getitem i "original".

(** The record of page [num] with address [u], over the record [w]. *)
Definition page_record (w : dict) (num : nat) (u : string) : dict :=
  <["extension" := VStr (rpartition_tail "." u)]>
    (<["num" := VStr ("_p" +:+ format_02 num)]> w).

(** What the loop over the pages yields and leaves behind when every
    page has an address. *)
Fixpoint pages_out (w : dict) (num : nat) (urls : list string) :
    list message :=
  match urls with
  | [] => []
  | u :: urls' =>
      MsgUrl u (page_record w num u)
      :: pages_out (page_record w num u) (S num) urls'
  end.

Fixpoint pages_work (w : dict) (num : nat) (urls : list string) : dict :=
  match urls with
  | [] => w
  | u :: urls' => pages_work (page_record w num u) (S num) urls'
  end.

(** Two records that agree on every key but [extension] and [num]. *)
Definition same_but_computed (d d' : dict) : Prop :=
  ∀ k, k ≠ "extension" → k ≠ "num" → d' !! k = d !! k.

(** The form of the record of every descriptor over the merged record
    [m]: the extension set, and for a page also the suffix. *)
Definition descriptor_record (m md : dict) : Prop :=
  (∃ ext, md = <["extension" := VStr ext]> m)
  ∨ (∃ ext num,
       md = <["extension" := VStr ext]>
              (<["num" := VStr ("_p" +:+ format_02 num)]> m)).

(** What a branch may have done when it stops, by returning or by
    raising: the record differs from [m] in [extension] and [num] at
    most, and every message added is a descriptor over [m]. *)
Definition branch_post {T : Transport} (m : dict) (o : list message)
    (r' : run) : Prop :=
  same_but_computed m (work r')
  ∧ ∃ l, out r' = (o ++ l)%list
         ∧ Forall (λ msg, ∃ url md, msg = MsgUrl url md
                                    ∧ descriptor_record m md) l.

(** ** A scripted server, for running the definitions *)

Definition obj (l : list (string * value)) : value := VDict (list_to_map l).

Definition demo_medium : string :=
  "https://i.pximg.net/img-zip-ugoira/66806629_ugoira600x600.zip".

Definition demo_frames : list value :=
  [obj [("file", VStr "000000.jpg"); ("delay", VInt 100)];
   obj [("file", VStr "000001.jpg"); ("delay", VInt 80)]].

Definition demo_ugoira : value :=
  obj [("ugoira_metadata",
        obj [("zip_urls", obj [("medium", VStr demo_medium)]);
             ("frames", VList demo_frames)])].

Definition demo_work (id : Z) (type : string) (pages : list string) : dict :=
  list_to_map
    [("id", VInt id);
     ("user", obj [("id", VInt 11); ("name", VStr "artist")]);
     ("type", VStr type);
     ("page_count", VInt (Z.of_nat (length pages)));
     ("meta_single_page",
      match pages with
      | [u] => obj [("original_image_url", VStr u)]
      | _ => obj []
      end);
     ("meta_pages",
      match pages with
      | [_] => VList []
      | _ => VList ((λ u, obj [("image_urls", obj [("original", VStr u)])])
                      <$> pages)
      end);
     ("image_urls", obj [("medium", VStr "https://i.pximg.net/c/540/1.jpg")]);
     ("tags", VList [obj [("name", VStr "landscape")];
                     obj [("name", VStr "sky")]])].

Definition demo_single : dict :=
  demo_work 12345 "illust" ["https://i.pximg.net/img-original/12345_p0.png"].

Definition demo_manga : dict :=
  demo_work 777 "manga"
    ["https://i.pximg.net/img-original/777_p0.jpg";
     "https://i.pximg.net/img-original/777_p1.png";
     "https://i.pximg.net/img-original/777_p2.jpg"].

Definition demo_anim : dict := demo_work 66806629 "ugoira" [].

Definition demo_page1 : value :=
  obj [("illusts", VList [VDict demo_single; VDict demo_manga]);
       ("next_url",
        VStr "https://app-api.pixiv.net/v1/illust/ranking?mode=day&offset=30")].

Definition demo_page2 : value :=
  obj [("illusts", VList [VDict demo_anim]); ("next_url", VNone)].

Definition demo_response (status : Z) (body : value) : response :=
  {| status_code := status; text := "body"; json := Ok body |}.

(** Serves the animation metadata, a ranking of two pages, a missing
    user, and a server error for everything else.  The world counts the
    requests. *)
Definition demo_get (url : string) (params : dict)
    (hdrs : gmap string string) (n : nat) : nat * result response :=
  (S n,
   Ok (if String.eqb url "https://app-api.pixiv.net/v1/ugoira/metadata"
       then demo_response 200 demo_ugoira
       else if String.eqb url "https://app-api.pixiv.net/v1/illust/ranking"
       then match params !! "offset" with
            | None => demo_response 200 demo_page1
            | Some _ => demo_response 200 demo_page2
            end
       else if String.eqb url "https://app-api.pixiv.net/v1/user/detail"
       then demo_response 404 VNone
       else demo_response 500 VNone)).

Definition demo_transport : Transport :=
  {| World := nat;
     login_impl := λ user _ n,
       (n, Ok (obj [("id", VInt 11); ("account", VStr user)],
               "Bearer token"));
     session_get := demo_get |}.

Definition demo_api : @api demo_transport :=
  @Build_api demo_transport "someone" "secret" ∅ VNone 0%nat [].

Definition demo_context : dict :=
  <["user" := obj [("id", VInt 11); ("account", VStr "someone")]]> ∅.

Definition demo_names : list value := [VStr "landscape"; VStr "sky"].

Definition demo_delays : list (string * Z) :=
  [("000000.jpg", 100%Z); ("000001.jpg", 80%Z)].

Definition demo_manga_urls : list string :=
  ["https://i.pximg.net/img-original/777_p0.jpg";
   "https://i.pximg.net/img-original/777_p1.png";
   "https://i.pximg.net/img-original/777_p2.jpg"].


(** ** Complete runs of the pagination *)

(** The trailing component of a next-page link: what follows its last
    ['='], and the link itself when it has none. *)
Definition last_component (u offset : string) : Prop :=
  ((∃ pre, u = pre +:+ "=" +:+ offset) ∧ mem_char "=" offset = false)
  ∨ (mem_char "=" u = false ∧ offset = u).

(** [paged endpoint params a pages a'] : starting from [params], the
    server answers with the pages [pages], one request each; every answer
    but the last names a next page, whose trailing component becomes the
    [offset] of the following request, and the last one names none. *)
Inductive paged {T : Transport} (endpoint : string) :
    dict → api → list (list value) → api → Prop :=
  | paged_last params a a' data illusts items next_url :
      _call endpoint params a = (a', Ok data) →
      getitem data "illusts" = Ok illusts →
      py_iter illusts = Ok items →
      getitem data "next_url" = Ok next_url →
      truthy next_url = false →
      paged endpoint params a [items] a'
  | paged_more params a a1 a' data illusts items u offset rest :
      _call endpoint params a = (a1, Ok data) →
      getitem data "illusts" = Ok illusts →
      py_iter illusts = Ok items →
      getitem data "next_url" = Ok (VStr u) →
      u ≠ "" →
      last_component u offset →
      paged endpoint (<["offset" := VStr offset]> params) a1 rest a' →
      paged endpoint params a (items :: rest) a'.

(** ** The other API calls *)

Section client_calls.
Context {T : Transport}.

(** [PixivAppAPI.illust_detail] *)
Definition illust_detail (illust_id : value) : M api value :=
  let params : dict := <["illust_id" := illust_id]> ∅ in
  data ← _call "v1/illust/detail" params;
  lift (getitem data "illust").

(** [PixivAppAPI.user_detail] *)
Definition user_detail (user_id : value) : M api value :=
  let params : dict := <["user_id" := user_id]> ∅ in
  data ← _call "v1/user/detail" params;
  lift (getitem data "user").

(** [PixivAppAPI.user_bookmarks_illust]; [tag] is [None] unless given. *)
Definition user_bookmarks_illust (fuel : nat) (user_id tag : value) :
    api → api * (list value * gen_end) :=
  let params : dict :=
    <["user_id" := user_id]>
      (<["restrict" := VStr "public"]> (<["tag" := tag]> ∅)) in
  _pagination fuel "v1/user/bookmarks/illust" params.

(** [PixivAppAPI.user_illusts]; [illust_type] is [None] unless given. *)
Definition user_illusts (fuel : nat) (user_id illust_type : value) :
    api → api * (list value * gen_end) :=
  let params : dict :=
    <["user_id" := user_id]> (<["type" := illust_type]> ∅) in
  _pagination fuel "v1/user/illusts" params.

End client_calls.

(** The requests among the events of a trace, in order. *)
Definition gets_of (l : list event) : list (string * dict) :=
  omap (λ e, match e with EvGet url params => Some (url, params) | _ => None end)
       l.

(** What one [_call] by [user] to [url] adds to the trace: the login,
    then at most one request, then at most one error line.  The
    parameters of the request are those of [params] but for [offset]. *)
Definition call_block (user url : string) (params : dict)
    (block : list event) : Prop :=
  block = [EvLogin user]
  ∨ ∃ p, (∀ k, k ≠ "offset" → p !! k = params !! k)
       ∧ (block = [EvLogin user; EvGet url p]
          ∨ ∃ msg, block = [EvLogin user; EvGet url p; EvLogError msg]).

(** ** [PixivAppAPI._login_impl] without its cache *)

(** The form [_login_impl] posts (its [data]). *)
Definition login_form (client_id client_secret username password : string) :
    dict :=
  <["client_id" := VStr client_id]>
    (<["client_secret" := VStr client_secret]>
       (<["grant_type" := VStr "password"]>
          (<["username" := VStr username]>
             (<["password" := VStr password]>
                (<["get_secure_url" := VInt 1]> ∅))))).

(** The body that the [cache] decorator wraps, over the [session.post]
    of the session; the info line it logs is left out. *)
Definition _login_impl {W : Type}
    (post : string → dict → W → W * result response)
    (client_id client_secret username password : string) :
    W → W * result (value * string) := λ w,
  let url := "https://oauth.secure.pixiv.net/auth/token" in
  let data := login_form client_id client_secret username password in
  match post url data w with
  | (w', Raise e) => (w', Raise e)
  | (w', Ok response) =>
      if (400 <=? status_code response)%Z
      then (w', Raise AuthenticationError)
      else
        (w',
         body ← json response;
         data ← getitem body "response";
         user ← getitem data "user";
         token ← getitem data "access_token";
         match token with
         | VStr t => Ok (user, "Bearer " +:+ t)
         | _ => Raise TypeError
         end)
  end.

(** The client whose logins all go to the server: [_login_impl] as it is
    when the cache has nothing for the user. *)
Definition uncached {W : Type}
    (post : string → dict → W → W * result response)
    (get : string → dict → gmap string string → W → W * result response)
    (client_id client_secret : string) : Transport :=
  {| World := W;
     login_impl := _login_impl post client_id client_secret;
     session_get := get |}.

(** ** The [get_metadata] methods *)

Section contexts.
Context {T : Transport}.

(** [PixivExtractor.get_metadata]; [user] is [None] unless given. *)
Definition get_metadata (user_id user : value) : M api dict :=
  user ← (if negb (truthy user) then user_detail user_id else mret user);
  mret (<["user" := user]> ∅).

(** [PixivWorkExtractor.get_metadata]: the fetched work ([self.work]) and
    the context.  [self.user_id] still has the [-1] of the base class. *)
Definition work_get_metadata (illust_id : value) : M api (value * dict) :=
  work ← illust_detail illust_id;
  user ← lift (getitem work "user");
  metadata ← get_metadata (VInt (-1)) user;
  mret (work, metadata).

(** [PixivFavoriteExtractor.get_metadata]: [self.user] and the context. *)
Definition favorite_get_metadata (user_id user : value) :
    M api (value * dict) :=
  user ← (if truthy user then mret user else user_detail user_id);
  mret (user, <["user_bookmark" := user]> ∅).

(** [PixivBookmarkExtractor.get_metadata]: [self.user_id], [self.user]
    and the context. *)
Definition bookmark_get_metadata : M api (value * value * dict) :=
  login;;
  user ← gets user_info;
  user_id ← lift (getitem user "id");
  '(user, metadata) ← favorite_get_metadata user_id user;
  mret (user_id, user, metadata).

(** [PixivWorkExtractor]: [items] with [works() = (self.work,)] and
    [load_ugoira = True].  A fetched work that is no dictionary fails at
    [work["user"]] in the loop. *)
Definition work_extractor_items (illust_id : value) (a : api) :
    api * list dict * list message * result unit :=
  match work_get_metadata illust_id a with
  | (a1, Raise e) => (a1, [], [], Raise e)
  | (a1, Ok (VDict w, metadata)) => items true metadata [w] a1
  | (a1, Ok (_, metadata)) =>
      (a1, [], [MsgVersion 1; MsgDirectory metadata], Raise TypeError)
  end.

End contexts.

(** ** [PixivUserExtractor]: the tag filter *)

Section tags.
Context {U : Unicode}.

(** [self.tag] of [__init__], from the tag of the URL once unquoted:
    none for a missing or empty tag. *)
Definition user_tag (unquoted : option string) : option string :=
  match unquoted with
  | Some t => if String.eqb t "" then None else Some (lower t)
  | None => None
  end.

(** [[tag["name"].lower() for tag in work["tags"]]] *)
Definition tag_names_lower (work : value) : result (list string) :=
  tags ← getitem work "tags";
  l ← py_iter tags;
  mapM (λ tag, name ← getitem tag "name";
               s ← str_method name;
               mret (lower s)) l.

(** [PixivUserExtractor._tagged_works] over the works that
    [user_illusts] hands out: the works it yields, and how it ended. *)
Fixpoint _tagged_works (tag : string) (works : list value) :
    list value * result unit :=
  match works with
  | [] => ([], Ok tt)
  | work :: works' =>
      match tag_names_lower work with
      | Raise e => ([], Raise e)
      | Ok names =>
          let '(rest, r) := _tagged_works tag works' in
          (if bool_decide (tag ∈ names) then work :: rest else rest, r)
      end
  end.

End tags.

(** ** [PixivMeExtractor] *)

(** What [PixivMeExtractor.items] reads of the answer to its HEAD
    request: the status and the headers.  [response.headers] is the
    case-insensitive dictionary of the HTTP library, which keeps every
    header under its name in lower case; [head_headers] is that store. *)
Record head_response : Type := {
  head_status : Z;
  head_headers : gmap string string
}.

Inductive me_message : Type :=
  | MeVersion (n : Z)
  | MeQueue (url : string) (metadata : dict).

Section me.
Context {U : Unicode}.

(** [headers[name]]: the dictionary looks up [name.lower()], and it is
    this key that a [KeyError] reports. *)
Definition headers_getitem (headers : gmap string string) (name : string) :
    result string :=
  let key := lower name in
  match headers !! key with
  | Some v => Ok v
  | None => Raise (KeyError key)
  end.

(** [PixivMeExtractor.items], over the [session.head] of the session. *)
Definition me_items {W : Type}
    (head : string → W → W * result head_response) (account : string) :
    W → W * list me_message * result unit := λ w,
  match head ("https://pixiv.me/" +:+ account) w with
  | (w', Raise e) => (w', [], Raise e)
  | (w', Ok response) =>
      if (head_status response =? 404)%Z
      then (w', [], Raise (NotFoundError "user"))
      else
        match headers_getitem (head_headers response) "Location" with
        | Ok location => (w', [MeVersion 1; MeQueue location ∅], Ok tt)
        | Raise e => (w', [MeVersion 1], Raise e)
        end
  end.

End me.

(** ** Messages a file can be named from *)

(** A [MsgUrl] whose record has the two fields every file name of the
    extractor is made of: an [extension], which is a string, and a
    [num]. *)
Definition named_url (msg : message) : Prop :=
  ∃ url md ext,
    msg = MsgUrl url md
    ∧ md !! "extension" = Some (VStr ext)
    ∧ is_Some (md !! "num").

(** ** Dates as the API takes them *)

Section dates.
Context {U : Unicode}.

(** Exactly eight decimal digits, in the words of the specification:
    eight characters, each of them a decimal digit. *)
Definition eight_digits (d : string) : Prop :=
  length (chars d) = 8%nat ∧ Forall (λ c, decimal c = true) (chars d).

(** [YYYY-MM-DD]: ten characters, decimal digits but for the two
    hyphens. *)
Definition date_shaped (s : string) : bool :=
  match chars s with
  | [y1; y2; y3; y4; h1; m1; m2; h2; d1; d2] =>
      decimal y1 && decimal y2 && decimal y3 && decimal y4
      && String.eqb h1 "-" && decimal m1 && decimal m2
      && String.eqb h2 "-" && decimal d1 && decimal d2
  | _ => false
  end.

(** The query of a ranking URL raises no warning: its mode, if any, is
    one of [modes] once in lower case, and its date, if any, is blank or
    eight decimal digits. *)
Definition query_accepted (query : gmap string string) : Prop :=
  is_Some (modes !! lower (default "daily" (query !! "mode")))
  ∧ match query !! "date" with
    | Some d => d = "" ∨ eight_digits d
    | None => True
    end.

End dates.

(** ** A small Unicode database *)

Definition utf8 (bytes : list nat) : string :=
  foldr (λ n s, String (ascii_of_nat n) s) EmptyString bytes.

(** The lower case of one character: ASCII, the fullwidth capitals
    U+FF21 to U+FF3A (in UTF-8 [EF BC A1] to [EF BC BA], their small
    letters 32 further on in the next block) and the Kelvin sign U+212A
    ([E2 84 AA], which becomes [k]). *)
Definition demo_lower_char (c : string) : string :=
  match c with
  | String a EmptyString => String (lower_char a) EmptyString
  | String a (String b (String d EmptyString)) =>
      let x := nat_of_ascii a in
      let y := nat_of_ascii b in
      let z := nat_of_ascii d in
      if (x =? 239)%nat && (y =? 188)%nat && (161 <=? z)%nat && (z <=? 186)%nat
      then utf8 [239; 189; z - 32]%nat
      else if (x =? 226)%nat && (y =? 132)%nat && (z =? 170)%nat then "k"
      else c
  | _ => c
  end.

Definition demo_lower (s : string) : string :=
  str_join (demo_lower_char <$> chars s).

(** The decimal digits: ASCII and the fullwidth digits U+FF10 to U+FF19
    ([EF BC 90] to [EF BC 99]). *)
Definition demo_decimal (c : string) : bool :=
  match c with
  | String a EmptyString => is_digit a
  | String a (String b (String d EmptyString)) =>
      (nat_of_ascii a =? 239)%nat && (nat_of_ascii b =? 188)%nat
      && (144 <=? nat_of_ascii d)%nat && (nat_of_ascii d <=? 153)%nat
  | _ => false
  end.

(** A database that knows ASCII, the fullwidth forms and the Kelvin sign,
    and says of them what Unicode says; every other character it takes
    for a letter without case. *)
Definition demo_unicode : Unicode :=
  {| lower := demo_lower; decimal := demo_decimal |}.

(** The date [20170818] in fullwidth digits, and the mode [weekly] with
    the Kelvin sign for its [k]. *)
Definition fullwidth_20170818 : string :=
  utf8 [239; 188; 146; 239; 188; 144; 239; 188; 145; 239; 188; 151;
        239; 188; 144; 239; 188; 152; 239; 188; 145; 239; 188; 152]%nat.

Definition kelvin_weekly : string :=
  "wee" +:+ utf8 [226; 132; 170]%nat +:+ "ly".

(** [FATE] in fullwidth capitals and in fullwidth small letters. *)
Definition fullwidth_FATE : string :=
  utf8 [239; 188; 166; 239; 188; 161; 239; 188; 180; 239; 188; 165]%nat.

Definition fullwidth_fate : string :=
  utf8 [239; 189; 134; 239; 189; 129; 239; 189; 148; 239; 189; 133]%nat.

(** ** More scripted servers *)

(** A server that accepts every login and answers every request with
    [resp]. *)
Definition fixed_transport (resp : response) : Transport :=
  {| World := nat;
     login_impl := λ user _ n,
       (n, Ok (obj [("id", VInt 11); ("account", VStr user)],
               "Bearer token"));
     session_get := λ _ _ _ n, (S n, Ok resp) |}.

Definition fixed_api (resp : response) : @api (fixed_transport resp) :=
  @Build_api (fixed_transport resp) "someone" "secret" ∅ VNone 0%nat [].

Definition demo_detail : response :=
  demo_response 200 (obj [("illust", VDict demo_single)]).

Definition demo_missing : response := demo_response 404 VNone.

Definition demo_plain_medium : string :=
  "https://i.pximg.net/img-zip-ugoira/66806629.zip".

Definition demo_plain_ugoira : response :=
  demo_response 200
    (obj [("ugoira_metadata",
           obj [("zip_urls", obj [("medium", VStr demo_plain_medium)]);
                ("frames", VList demo_frames)])]).

(** A work whose owner has the id 0. *)
Definition demo_orphan : dict :=
  <["user" := obj [("id", VInt 0)]]> demo_single.

Definition demo_head (url : string) (n : nat) : nat * result head_response :=
  (S n,
   Ok (if String.eqb url "https://pixiv.me/del_shannon"
       then {| head_status := 302;
               head_headers :=
                 {["location" := "https://www.pixiv.net/member.php?id=1"]} |}
       else {| head_status := 404; head_headers := ∅ |})).

Definition demo_token : response :=
  demo_response 200
    (obj [("response",
           obj [("user", obj [("id", VInt 11)]);
                ("access_token", VStr "abc")])]).

Definition demo_post (url : string) (data : dict) (n : nat) :
    nat * result response :=
  (S n, Ok demo_token).

Definition demo_uncached : Transport :=
  uncached demo_post demo_get "id" "secret".

Definition demo_uncached_api : @api demo_uncached :=
  @Build_api demo_uncached "someone" "secret" ∅ VNone 0%nat [].

Definition demo_tagged (names : list string) : value :=
  obj [("tags", VList ((λ n, obj [("name", VStr n)]) <$> names))].

(** * Properties *)

(** ** Strings *)

Section strings.

#[local] Arguments String.append !_ _ / : simpl nomatch.

Lemma app_String c s t : String c s +:+ t = String c (s +:+ t).
Proof. reflexivity. Qed.

Lemma app_empty s : "" +:+ s = s.
Proof. reflexivity. Qed.

Lemma startswith_app p s : startswith p (p +:+ s) = true.
Proof.
  induction p as [|c p IH]; simpl; [by destruct s|].
  by rewrite Ascii.eqb_refl.
Qed.

Lemma startswith_split p s :
  startswith p s = true → s = p +:+ drop (String.length p) s.
Proof.
  revert s; induction p as [|c p IH]; intros s H; simpl in *.
  - by destruct s.
  - destruct s as [|b s]; [done|].
    apply andb_true_iff in H as [Hc Hp].
    apply Ascii.eqb_eq in Hc as ->. simpl. f_equal. by apply IH.
Qed.

Lemma startswith_take p n s :
  startswith p (take n s) = true → startswith p s = true.
Proof.
  revert n s; induction p as [|c p IH]; intros n s H; [done|].
  destruct n, s; simpl in *; try done.
  apply andb_true_iff in H as [-> Hp]. simpl. eauto.
Qed.

Lemma replace_scan_skip old new k s :
  replace_scan old new k s = replace_scan old new 0 (drop k s).
Proof.
  revert k; induction s as [|c s IH]; intros [|k]; simpl; done.
Qed.

Lemma take_drop n s : take n s +:+ drop n s = s.
Proof.
  revert s; induction n as [|n IH]; intros [|c s]; simpl; try done.
  by rewrite IH.
Qed.

Lemma contains_find old s :
  contains old s = true → is_Some (find old s).
Proof.
  induction s as [|c s IH]; simpl.
  - destruct (startswith old ""); [eauto|done].
  - destruct (startswith old (String c s)); [eauto|]. simpl.
    intros H. destruct (IH H) as [i ->]. simpl; eauto.
Qed.

Lemma find_before a old s i :
  find (String a old) s = Some i → contains (String a old) (take i s) = false.
Proof.
  revert i; induction s as [|c s IH]; intros i.
  - by destruct i.
  - cbn [find].
    destruct (startswith (String a old) (String c s)) eqn:Hs.
    + intros [= <-]. done.
    + destruct (find (String a old) s) as [j|] eqn:Hf; [|done].
      intros [= <-]. cbn [take contains].
      rewrite (IH j eq_refl), orb_false_r.
      destruct (startswith _ (String c (take j s))) eqn:Ht; [|done].
      apply (startswith_take _ (S j) (String c s)) in Ht. congruence.
Qed.

Lemma find_split a old s i :
  find (String a old) s = Some i →
  s = take i s +:+ String a old +:+ drop (i + String.length (String a old)) s.
Proof.
  revert i; induction s as [|c s IH]; intros i.
  - done.
  - cbn [find].
    destruct (startswith (String a old) (String c s)) eqn:Hs.
    + intros [= <-]. by apply startswith_split in Hs.
    + destruct (find (String a old) s) as [j|] eqn:Hf; [|done].
      intros [= <-]. cbn [take]. simpl. f_equal. by apply IH.
Qed.

Lemma replace_scan_find a old new s i :
  find (String a old) s = Some i →
  replace_scan (String a old) new 0 s
  = take i s +:+ new
    +:+ replace_scan (String a old) new 0
          (drop (i + String.length (String a old)) s).
Proof.
  revert i; induction s as [|c s IH]; intros i.
  - done.
  - cbn [find replace_scan].
    destruct (startswith (String a old) (String c s)) eqn:Hs.
    + intros [= <-]. cbn [take]. simpl.
      by rewrite replace_scan_skip, Nat.sub_0_r.
    + destruct (find (String a old) s) as [j|] eqn:Hf; [|done].
      intros [= <-]. cbn [take]. simpl. f_equal. by apply IH.
Qed.

Lemma replace_scan_absent old new s :
  contains old s = false → replace_scan old new 0 s = s.
Proof.
  induction s as [|c s IH]; [done|]. cbn [contains replace_scan].
  intros [-> H]%orb_false_iff. f_equal. by apply IH.
Qed.

(** What [replace] does to a string that holds the marker: the text
    before the first occurrence is kept, the occurrence is exchanged, and
    the rest is treated the same way (and kept as it is when it holds no
    further occurrence). *)
Lemma replace_first a old new s :
  contains (String a old) s = true →
  ∃ pre post,
    s = pre +:+ String a old +:+ post
    ∧ contains (String a old) pre = false
    ∧ replace (String a old) new s
      = pre +:+ new +:+ replace (String a old) new post
    ∧ (contains (String a old) post = false →
       replace (String a old) new s = pre +:+ new +:+ post).
Proof.
  intros [i Hi]%contains_find.
  exists (take i s), (drop (i + String.length (String a old)) s).
  split; [by apply find_split|].
  split; [by apply find_before|].
  unfold replace. split.
  - by apply replace_scan_find.
  - intros H. rewrite (replace_scan_find _ _ _ _ _ Hi).
    by rewrite (replace_scan_absent _ _ _ H).
Qed.

Lemma replace_nonempty a old b new s :
  s ≠ "" → replace (String a old) (String b new) s ≠ "".
Proof.
  destruct s as [|c s]; [done|]. intros _. unfold replace.
  cbn [replace_scan]. by destruct (startswith _ _).
Qed.

Lemma mem_char_app c s t :
  mem_char c (s +:+ t) = mem_char c s || mem_char c t.
Proof.
  induction s as [|a s IH]; simpl; [done|]. by rewrite IH, orb_assoc.
Qed.

(** [rpartition_tail] gives what follows the last separator. *)
Lemma rpartition_tail_last c pre post :
  mem_char c post = false →
  rpartition_tail c (pre +:+ String c post) = post.
Proof.
  intros H. induction pre as [|a pre IH]; simpl.
  - by rewrite H, Ascii.eqb_refl.
  - rewrite mem_char_app. simpl.
    by rewrite Ascii.eqb_refl, orb_true_r.
Qed.

Lemma rpartition_tail_absent c s :
  mem_char c s = false → rpartition_tail c s = s.
Proof.
  destruct s as [|a s]; [done|]. simpl.
  intros [Ha ->]%orb_false_iff. by rewrite Ha.
Qed.

Lemma rpartition_tail_split c s :
  mem_char c s = true →
  ∃ pre, s = pre +:+ String c (rpartition_tail c s)
         ∧ mem_char c (rpartition_tail c s) = false.
Proof.
  induction s as [|a s IH]; [done|]. simpl.
  destruct (mem_char c s) eqn:Hs.
  - intros _. destruct (IH eq_refl) as (pre & Hpre & Hno).
    exists (String a pre). simpl. by rewrite <- Hpre.
  - rewrite orb_false_r. intros Ha. rewrite Ha.
    apply Ascii.eqb_eq in Ha as ->. by exists "".
Qed.

End strings.

(** ** Characters *)

Section characters.

#[local] Arguments String.append !_ _ / : simpl nomatch.

Lemma str_app_empty_r s : s +:+ "" = s.
Proof. induction s as [|c s IH]; [done|]. cbn. by rewrite IH. Qed.

Lemma str_app_assoc s t u : (s +:+ t) +:+ u = s +:+ t +:+ u.
Proof. induction s as [|c s IH]; [done|]. cbn. by rewrite IH. Qed.

Lemma chars_starts s :
  starts_continuation (hd "" (chars s)) = starts_continuation s.
Proof.
  destruct s as [|c s]; [done|]. cbn [chars].
  destruct (chars s) as [|ch rest]; [done|].
  by destruct (starts_continuation ch).
Qed.

Lemma chars_cons c s :
  starts_continuation s = false →
  chars (String c s) = String c "" :: chars s.
Proof.
  intros Hs. cbn [chars]. pose proof (chars_starts s) as H.
  destruct (chars s) as [|ch rest]; [done|].
  cbn [hd] in H. by rewrite H, Hs.
Qed.

Lemma chars_app_character c s :
  character c = true → starts_continuation s = false →
  chars (c +:+ s) = c :: chars s.
Proof.
  destruct c as [|a t]; [done|]. cbn [character].
  revert a. induction t as [|b t IH]; intros a Ht Hs.
  - by apply chars_cons.
  - cbn [all_chars] in Ht. apply andb_true_iff in Ht as [Hb Ht].
    change (String a (String b t) +:+ s) with (String a (String b t +:+ s)).
    cbn [chars]. rewrite (IH b Ht Hs). cbn [starts_continuation].
    by rewrite Hb.
Qed.

Lemma chars_characters s : Forall (λ c, character c = true) (chars s).
Proof.
  induction s as [|c s IH]; [constructor|]. cbn [chars].
  destruct (chars s) as [|ch rest]; [by repeat constructor|].
  apply Forall_cons in IH as [Hch Hrest].
  destruct (starts_continuation ch) eqn:Hs.
  - constructor; [|done]. cbn [character]. destruct ch as [|b t]; [done|].
    cbn [starts_continuation] in Hs. cbn [character] in Hch.
    cbn [all_chars]. by rewrite Hs, Hch.
  - by repeat constructor.
Qed.

Lemma chars_tail s :
  Forall (λ c, starts_continuation c = false) (tail (chars s)).
Proof.
  induction s as [|c s IH]; [constructor|]. cbn [chars].
  destruct (chars s) as [|ch rest]; [constructor|]. cbn [tail] in *.
  destruct (starts_continuation ch) eqn:Hs; [done|].
  by constructor.
Qed.

Lemma str_join_chars s : str_join (chars s) = s.
Proof.
  induction s as [|c s IH]; [done|]. cbn [chars].
  destruct (chars s) as [|ch rest].
  - cbn in *. by rewrite <- IH.
  - destruct (starts_continuation ch); cbn [str_join foldr] in *;
      by rewrite <- IH.
Qed.

Lemma character_starts c s :
  character c = true →
  starts_continuation (c +:+ s) = starts_continuation c.
Proof. by destruct c. Qed.

Lemma chars_str_join cs :
  Forall (λ c, character c = true) cs →
  Forall (λ c, starts_continuation c = false) (tail cs) →
  chars (str_join cs) = cs.
Proof.
  induction cs as [|c cs IH]; [done|]. intros [Hc Hcs]%Forall_cons Ht.
  cbn [tail] in Ht. cbn [str_join foldr]. fold (str_join cs).
  rewrite chars_app_character; [|done|].
  - rewrite IH; [done|done|]. destruct cs; [constructor|].
    by apply Forall_cons in Ht as [_ ?].
  - destruct cs as [|c' cs]; [done|]. cbn [str_join foldr].
    apply Forall_cons in Hcs as [Hc' _]. apply Forall_cons in Ht as [Hs _].
    by rewrite character_starts.
Qed.

Lemma chars_ascii c s :
  is_ascii s = true → chars (String c s) = String c "" :: chars s.
Proof.
  intros Hs. apply chars_cons. destruct s as [|b s]; [done|].
  cbn [is_ascii all_chars] in Hs. apply andb_true_iff in Hs as [Hb _].
  cbn [starts_continuation]. unfold continuation.
  apply Nat.ltb_lt in Hb. apply andb_false_iff. left.
  apply Nat.leb_gt. lia.
Qed.

Lemma lower_char_idemp c : lower_char (lower_char c) = lower_char c.
Proof. by destruct c as [[] [] [] [] [] [] [] []]. Qed.

Lemma ascii_lower_idemp s : ascii_lower (ascii_lower s) = ascii_lower s.
Proof.
  induction s as [|c s IH]; [done|]. cbn. by rewrite lower_char_idemp, IH.
Qed.

(** *** The small database *)

Lemma demo_lower_char_idemp c :
  demo_lower_char (demo_lower_char c) = demo_lower_char c.
Proof.
  destruct c as [|a [|b [|d [|e t]]]]; try done.
  - cbn. by rewrite lower_char_idemp.
  - cbn [demo_lower_char].
    destruct ((nat_of_ascii a =? 239)%nat && (nat_of_ascii b =? 188)%nat
              && (161 <=? nat_of_ascii d)%nat && (nat_of_ascii d <=? 186)%nat)
      eqn:Hfw.
    + cbn [utf8 foldr demo_lower_char]. by rewrite andb_false_r.
    + destruct ((nat_of_ascii a =? 226)%nat && (nat_of_ascii b =? 132)%nat
                && (nat_of_ascii d =? 170)%nat) eqn:Hk; [done|].
      cbn [demo_lower_char]. by rewrite Hfw, Hk.
Qed.

Lemma lower_char_continuation a :
  continuation (lower_char a) = continuation a.
Proof. by destruct a as [[] [] [] [] [] [] [] []]. Qed.

Lemma demo_lower_char_character c :
  character c = true → character (demo_lower_char c) = true.
Proof.
  destruct c as [|a [|b [|d [|e t]]]]; try done.
  intros Hc. cbn [demo_lower_char].
  destruct ((nat_of_ascii a =? 239)%nat && (nat_of_ascii b =? 188)%nat
            && (161 <=? nat_of_ascii d)%nat && (nat_of_ascii d <=? 186)%nat)
    eqn:Hfw.
  - apply andb_true_iff in Hfw as [[_ Hlo%Nat.leb_le]%andb_true_iff
                                     Hhi%Nat.leb_le].
    cbn [utf8 foldr character all_chars]. rewrite andb_true_r.
    apply andb_true_iff. split; [vm_compute; reflexivity|]. unfold continuation.
    rewrite nat_ascii_embedding by lia. apply andb_true_iff.
    split; [apply Nat.leb_le|apply Nat.ltb_lt]; lia.
  - by destruct ((nat_of_ascii a =? 226)%nat && (nat_of_ascii b =? 132)%nat
                 && (nat_of_ascii d =? 170)%nat).
Qed.

Lemma demo_lower_char_starts c :
  starts_continuation c = false →
  starts_continuation (demo_lower_char c) = false.
Proof.
  destruct c as [|a [|b [|d [|e t]]]]; try done.
  - cbn. by rewrite lower_char_continuation.
  - intros Ha. cbn [demo_lower_char].
    destruct ((nat_of_ascii a =? 239)%nat && (nat_of_ascii b =? 188)%nat
              && (161 <=? nat_of_ascii d)%nat && (nat_of_ascii d <=? 186)%nat);
      [done|].
    by destruct ((nat_of_ascii a =? 226)%nat && (nat_of_ascii b =? 132)%nat
                 && (nat_of_ascii d =? 170)%nat).
Qed.

Lemma chars_demo_lower s :
  chars (demo_lower s) = demo_lower_char <$> chars s.
Proof.
  unfold demo_lower. apply chars_str_join.
  - apply Forall_fmap. eapply Forall_impl; [apply chars_characters|].
    intros c. apply demo_lower_char_character.
  - pose proof (chars_tail s) as Ht.
    destruct (chars s) as [|c cs]; [constructor|]. cbn [tail fmap list_fmap] in *.
    apply Forall_fmap. eapply Forall_impl; [exact Ht|].
    intros c'. apply demo_lower_char_starts.
Qed.

Lemma demo_unicode_laws : UnicodeLaws demo_unicode.
Proof.
  split.
  - cbn [lower demo_unicode]. intros s. induction s as [|c s IH]; [done|].
    intros Hs. cbn [is_ascii all_chars] in Hs.
    apply andb_true_iff in Hs as [Hc Hs].
    unfold demo_lower. rewrite chars_ascii by done.
    cbn [fmap list_fmap str_join foldr demo_lower_char ascii_lower].
    fold (str_join (demo_lower_char <$> chars s)).
    fold (demo_lower s). by rewrite (IH Hs).
  - cbn [lower demo_unicode]. intros s.
    unfold demo_lower at 1. rewrite chars_demo_lower.
    unfold demo_lower. f_equal. rewrite <- list_fmap_compose.
    apply list_fmap_ext. intros _ c _. apply demo_lower_char_idemp.
  - done.
Qed.

End characters.

Lemma last_component_rpartition u offset :
  last_component u offset ↔ offset = rpartition_tail "=" u.
Proof.
  split.
  - intros [[[pre ->] Hno]|[Hno ->]].
    + symmetry. by apply (rpartition_tail_last "=" pre offset).
    + symmetry. by apply rpartition_tail_absent.
  - intros ->. destruct (mem_char "=" u) eqn:Hu.
    + left. destruct (rpartition_tail_split _ _ Hu) as (pre & Hpre & Hno).
      split; [by exists pre|done].
    + right. split; [done|]. by apply rpartition_tail_absent.
Qed.

(** ** The API client *)

Section client_facts.
Context {T : Transport}.

Lemma login_trace (a : api) :
  trace (login a).1 = (trace a ++ [EvLogin (username a)])%list.
Proof.
  unfold login. simpl.
  by destruct (login_impl _ _ _) as [w [[user auth]|e]].
Qed.

Lemma get_trace url params (a : api) :
  trace (get url params a).1 = (trace a ++ [EvGet url params])%list.
Proof.
  unfold get. simpl. by destruct (session_get _ _ _ _).
Qed.

(** C5: [_call] logs in first and then sends one GET; a status from 200
    to 399 gives the parsed body, 404 raises [NotFoundError], any other
    status logs the response text and raises [StopExtraction]; no branch
    sends a second request. *)
Theorem call_protocol endpoint params (a : api) :
  let url := "https://app-api.pixiv.net/" +:+ endpoint in
  ∃ a1 r1, login a = (a1, r1) ∧
    trace a1 = (trace a ++ [EvLogin (username a)])%list ∧
    match r1 with
    | Raise e => _call endpoint params a = (a1, Raise e)
    | Ok _ =>
        ∃ a2 r2, get url params a1 = (a2, r2) ∧
          trace a2
          = (trace a ++ [EvLogin (username a); EvGet url params])%list ∧
          match r2 with
          | Raise e => _call endpoint params a = (a2, Raise e)
          | Ok resp =>
              ((200 ≤ status_code resp < 400)%Z →
               _call endpoint params a = (a2, json resp))
              ∧ (status_code resp = 404%Z →
                 _call endpoint params a = (a2, Raise (NotFoundError "")))
              ∧ (¬ (200 ≤ status_code resp < 400)%Z →
                 status_code resp ≠ 404%Z →
                 ∃ a3, _call endpoint params a = (a3, Raise StopExtraction)
                   ∧ world a3 = world a2
                   ∧ trace a3
                     = (trace a ++
                        [EvLogin (username a); EvGet url params;
                         EvLogError
                           ("API request failed: " +:+ text resp)])%list)
          end
    end.
Proof.
  intros url.
  destruct (login a) as [a1 r1] eqn:Hl. exists a1, r1.
  split; [done|].
  assert (Ht1 : trace a1 = (trace a ++ [EvLogin (username a)])%list).
  { by rewrite <- login_trace, Hl. }
  split; [done|].
  unfold _call, mbind, M_bind. rewrite Hl.
  destruct r1 as [[]|e]; [|done].
  fold url.
  destruct (get url params a1) as [a2 r2] eqn:Hg. exists a2, r2.
  split; [done|].
  assert (Ht2 : trace a2
            = (trace a ++ [EvLogin (username a); EvGet url params])%list).
  { pose proof (get_trace url params a1) as H. rewrite Hg in H.
    simpl in H. by rewrite H, Ht1, <- app_assoc. }
  split; [done|].
  destruct r2 as [resp|e]; [|done].
  split; [|split].
  - intros [H1 H2].
    apply Z.leb_le in H1. apply Z.ltb_lt in H2. by rewrite H1, H2.
  - intros H. rewrite H. done.
  - intros H1 H2.
    destruct ((200 <=? status_code resp)%Z && (status_code resp <? 400)%Z)
      eqn:Hr.
    { apply andb_true_iff in Hr as [?%Z.leb_le ?%Z.ltb_lt]. lia. }
    destruct (status_code resp =? 404)%Z eqn:H4.
    { apply Z.eqb_eq in H4. done. }
    eexists. split; [reflexivity|]. simpl. split; [done|].
    by rewrite Ht2, <- app_assoc.
Qed.

Lemma pagination_unfold fuel endpoint params (a : api) :
  _pagination (S fuel) endpoint params a =
  match _call endpoint params a with
  | (a1, Raise e) => (a1, ([], Raised e))
  | (a1, Ok data) =>
      match getitem data "illusts" with
      | Raise e => (a1, ([], Raised e))
      | Ok illusts =>
          match py_iter illusts with
          | Raise e => (a1, ([], Raised e))
          | Ok items =>
              match getitem data "next_url" with
              | Raise e => (a1, (items, Raised e))
              | Ok next_url =>
                  if negb (truthy next_url)
                  then (a1, (items, Exhausted))
                  else
                    match str_method next_url with
                    | Raise e => (a1, (items, Raised e))
                    | Ok u =>
                        let '(a2, (rest, e)) :=
                          _pagination fuel endpoint
                            (<["offset" := VStr (rpartition_tail "=" u)]>
                               params) a1 in
                        (a2, ((items ++ rest)%list, e))
                    end
              end
          end
      end
  end.
Proof. reflexivity. Qed.

Lemma paged_exhausts endpoint params (a a' : api) pages :
  paged endpoint params a pages a' →
  _pagination (length pages) endpoint params a
  = (a', (concat pages, Exhausted)).
Proof.
  induction 1 as [params a a' data illusts items next Hc Hi Hit Hn Hf
                 |params a a1 a' data illusts items u offset rest
                    Hc Hi Hit Hn Hu Ho Hrest IH].
  - cbn [length]. rewrite pagination_unfold, Hc, Hi, Hit, Hn, Hf.
    simpl. by rewrite app_nil_r.
  - cbn [length]. rewrite pagination_unfold, Hc, Hi, Hit, Hn.
    apply last_component_rpartition in Ho as ->.
    assert (truthy (VStr u) = true) as ->.
    { simpl. apply negb_true_iff, String.eqb_neq. done. }
    cbn [negb str_method]. by rewrite IH.
Qed.

Lemma exhausts_paged fuel endpoint params (a a' : api) out :
  _pagination fuel endpoint params a = (a', (out, Exhausted)) →
  ∃ pages, paged endpoint params a pages a' ∧ out = concat pages.
Proof.
  revert params a out.
  induction fuel as [|fuel IH]; intros params a out; [done|].
  rewrite pagination_unfold.
  destruct (_call endpoint params a) as [a1 [data|e]] eqn:Hc; [|done].
  destruct (getitem data "illusts") as [illusts|e] eqn:Hi; [|done].
  destruct (py_iter illusts) as [items|e] eqn:Hit; [|done].
  destruct (getitem data "next_url") as [next|e] eqn:Hn; [|done].
  destruct (truthy next) eqn:Hf; cbn [negb].
  - destruct next as [| | |u| |]; try done. cbn [str_method].
    destruct (_pagination fuel _ _ _) as [a2 [rest e]] eqn:Hp.
    intros [= -> <- ->].
    destruct (IH _ _ _ Hp) as (pages & Hpages & ->).
    exists (items :: pages). split; [|done].
    eapply paged_more; eauto.
    + intros ->. done.
    + by apply last_component_rpartition.
  - intros [= -> <-]. exists [items]. split.
    + by eapply paged_last.
    + simpl. by rewrite app_nil_r.
Qed.

(** Once the generator has returned or raised, driving it further
    changes nothing. *)
Lemma pagination_more_fuel fuel fuel' endpoint params (a a' : api) out e :
  _pagination fuel endpoint params a = (a', (out, e)) →
  e ≠ Suspended → (fuel ≤ fuel')%nat →
  _pagination fuel' endpoint params a = (a', (out, e)).
Proof.
  revert fuel' params a out.
  induction fuel as [|fuel IH]; intros fuel' params a out H He Hle.
  { cbn in H. by injection H as <- <- <-. }
  destruct fuel' as [|fuel']; [lia|].
  rewrite pagination_unfold in *.
  destruct (_call endpoint params a) as [a1 [data|e1]]; [|done].
  destruct (getitem data "illusts") as [illusts|e1]; [|done].
  destruct (py_iter illusts) as [items|e1]; [|done].
  destruct (getitem data "next_url") as [next|e1]; [|done].
  destruct (negb (truthy next)); [done|].
  destruct (str_method next) as [u|e1]; [|done].
  destruct (_pagination fuel _ _ _) as [a2 [rest e2]] eqn:Hp.
  injection H as <- <- <-.
  by rewrite (IH fuel' _ _ _ Hp He ltac:(lia)).
Qed.

(** C6: the pagination returns exactly when the server, asked page after
    page, at some point answers with a falsy next-page field; what it
    has yielded by then is the items of the pages in order, and each
    request after the first carries as [offset] the trailing component
    of the preceding next-page field. *)
Theorem pagination_exhausts_iff endpoint params (a a' : api) out :
  (∃ fuel, _pagination fuel endpoint params a = (a', (out, Exhausted)))
  ↔ (∃ pages, paged endpoint params a pages a' ∧ out = concat pages).
Proof.
  split.
  - intros [fuel H]. by eapply exhausts_paged.
  - intros (pages & H & ->). exists (length pages).
    by apply paged_exhausts.
Qed.

End client_facts.

(** ** The loop body of [items] *)

Section extractor_facts.
Context {T : Transport}.

Lemma items_work_prelude load metadata w msp pages names (a : api) o :
  raw_work w msp pages names →
  items_work load metadata {| session := a; work := w; out := o |}
  = items_branch load msp pages
      {| session := a; work := merged metadata w names; out := o |}.
Proof.
  intros [(user & uid & Hu & Hid & Ht) Hs Hp [iu Hi] (tags & Htg & Hn)].
  unfold items_work, mbind, M_bind, work_get, lift. cbn.
  rewrite Hu, Hid, Ht. cbn. rewrite Hs, Hp. cbn.
  unfold work_del. cbn. rewrite Hs. cbn.
  rewrite lookup_delete_ne, Hi by done. cbn.
  rewrite !lookup_delete_ne, Hp by done. cbn.
  rewrite lookup_insert_ne, !lookup_delete_ne, Htg by done.
  unfold mbind in Hn. rewrite Hn. done.
Qed.

Lemma items_work_skip load metadata (r : run) user uid :
  work r !! "user" = Some user →
  getitem user "id" = Ok uid →
  truthy uid = false →
  items_work load metadata r = (r, Ok tt).
Proof.
  intros Hu Hid Ht.
  unfold items_work, mbind, M_bind, work_get, lift. cbn.
  by rewrite Hu, Hid, Ht.
Qed.

Lemma policy_context_lookup metadata k :
  policy_context metadata → k ∉ context_keys → metadata !! k = None.
Proof.
  intros Hc Hk. apply not_elem_of_dom. set_solver.
Qed.

Lemma merged_lookup metadata w names k :
  metadata !! k = None →
  k ≠ "tags" → k ≠ "num" →
  k ≠ "meta_pages" → k ≠ "image_urls" → k ≠ "meta_single_page" →
  merged metadata w names !! k = w !! k.
Proof.
  intros Hm ?????. unfold merged, work_fields.
  rewrite lookup_union_r by done.
  by rewrite !lookup_insert_ne, !lookup_delete_ne.
Qed.

Lemma not_context_key k :
  k ≠ "user" → k ≠ "user_bookmark" → k ≠ "ranking" → k ∉ context_keys.
Proof.
  intros ??? [[?%elem_of_singleton|?%elem_of_singleton]%elem_of_union
             |?%elem_of_singleton]%elem_of_union; done.
Qed.

(** The [ugoira] branch with loading switched off. *)
Lemma items_branch_ugoira_off msp pages (r : run) :
  work r !! "type" = Some (VStr "ugoira") →
  items_branch false msp pages r = (r, Ok tt).
Proof.
  intros Ht. unfold items_branch, mbind, M_bind, work_get. cbn.
  by rewrite Ht.
Qed.

Lemma mapM_format_frame frames fds :
  Forall2 (λ frame fd, getitem frame "file" = Ok (VStr fd.1)
                       ∧ getitem frame "delay" = Ok (VInt fd.2))
          frames fds →
  mapM format_frame frames
  = Ok ((λ fd : string * Z, fd.1 +:+ " " +:+ pretty fd.2 +:+ newline) <$> fds).
Proof.
  induction 1 as [|frame fd frames fds [Hf Hd] _ IH]; [done|].
  cbn. rewrite IH. unfold format_frame. rewrite Hf. cbn.
  rewrite Hd. done.
Qed.

(** The [ugoira] branch with loading switched on and the metadata
    request answered. *)
Lemma items_branch_ugoira_on msp pages (a a' : api) m o id ug zip u
      frames fds :
  m !! "type" = Some (VStr "ugoira") →
  m !! "id" = Some id →
  ugoira_metadata id a = (a', Ok ug) →
  getitem ug "zip_urls" = Ok zip →
  getitem zip "medium" = Ok (VStr u) →
  getitem ug "frames" = Ok (VList frames) →
  Forall2 (λ frame fd, getitem frame "file" = Ok (VStr fd.1)
                       ∧ getitem frame "delay" = Ok (VInt fd.2))
          frames fds →
  items_branch true msp pages {| session := a; work := m; out := o |}
  = ({| session := a';
        work := <["extension" := VStr "txt"]> m;
        out := (o ++
          [MsgUrl (replace "_ugoira600x600" "_ugoira1920x1080" u)
                  (<["extension" := VStr "zip"]> m);
           MsgUrl ("text:" +:+ String.concat ""
                     ((λ fd : string * Z,
                         fd.1 +:+ " " +:+ pretty fd.2 +:+ newline) <$> fds))
                  (<["extension" := VStr "txt"]> m)])%list |},
     Ok tt).
Proof.
  intros Ht Hid Hug Hz Hm Hf Hfr.
  unfold items_branch, mbind, M_bind, work_get. cbn.
  rewrite Ht. cbn. unfold items_ugoira, mbind, M_bind, work_get. cbn.
  rewrite Hid. unfold call_api. cbn. rewrite Hug. cbn.
  rewrite Hz. cbn. rewrite Hm. cbn. rewrite Hf. cbn.
  rewrite (mapM_format_frame _ _ Hfr). cbn.
  unfold yield_url, modify. cbn. rewrite insert_insert_eq, <- app_assoc. done.
Qed.

Lemma items_branch_single load msp (r : run) ty pc u :
  work r !! "type" = Some ty → eq_str ty "ugoira" = false →
  work r !! "page_count" = Some pc → eq_int pc 1 = true →
  getitem msp "original_image_url" = Ok (VStr u) →
  ∀ pages,
  items_branch load msp pages r
  = ({| session := session r;
        work := <["extension" := VStr (rpartition_tail "." u)]> (work r);
        out := (out r ++
                [MsgUrl u (<["extension" := VStr (rpartition_tail "." u)]>
                             (work r))])%list |},
     Ok tt).
Proof.
  intros Ht Hne Hp Hpc Hu pages.
  unfold items_branch, mbind, M_bind, work_get. cbn.
  rewrite Ht. cbn. rewrite Hne, Hp. cbn. rewrite Hpc.
  unfold items_single, mbind, M_bind, lift. rewrite Hu. done.
Qed.

Lemma items_branch_pages load msp (r : run) ty pc pages imgs :
  work r !! "type" = Some ty → eq_str ty "ugoira" = false →
  work r !! "page_count" = Some pc → eq_int pc 1 = false →
  py_iter pages = Ok imgs →
  items_branch load msp pages r = items_pages 0 imgs r.
Proof.
  intros Ht Hne Hp Hpc Hi.
  unfold items_branch, mbind, M_bind, work_get. cbn.
  rewrite Ht. cbn. rewrite Hne, Hp. cbn. rewrite Hpc.
  unfold lift. by rewrite Hi.
Qed.


Lemma bind_run {S A B} (m : M S A) (f : A → M S B) (s : S) :
  (m ≫= f) s
  = match m s with
    | (s', Ok a) => f a s'
    | (s', Raise e) => (s', Raise e)
    end.
Proof. reflexivity. Qed.

Lemma page_record_again w n u n' u' :
  page_record (page_record w n u) n' u' = page_record w n' u'.
Proof.
  unfold page_record. apply map_eq. intros k.
  rewrite !lookup_insert. by repeat case_decide.
Qed.

Lemma items_pages_run n imgs urls (r : run) :
  Forall2 (λ img u, page_url img = Ok (VStr u)) imgs urls →
  items_pages n imgs r
  = ({| session := session r;
        work := pages_work (work r) n urls;
        out := (out r ++ pages_out (work r) n urls)%list |}, Ok tt).
Proof.
  intros H. revert n r.
  induction H as [|img u imgs urls Hu _ IH]; intros n r.
  - cbn. rewrite app_nil_r. by destruct r.
  - cbn [items_pages]. unfold mbind at 1, M_bind at 1, lift at 1.
    unfold page_url in Hu. rewrite Hu.
    unfold mbind at 1, M_bind at 1. cbn -[items_pages format_02].
    repeat (rewrite bind_run; cbn -[items_pages format_02]).
    rewrite IH. cbn -[format_02]. by rewrite <- app_assoc.
Qed.

Lemma pages_out_lookup w n0 u0 n urls i u :
  urls !! i = Some u →
  pages_out (page_record w n0 u0) n urls !! i
  = Some (MsgUrl u (page_record w (n + i) u)).
Proof.
  revert n n0 u0 i.
  induction urls as [|u' urls IH]; intros n n0 u0 [|i] Hi; try done.
  - injection Hi as ->. cbn. by rewrite page_record_again, Nat.add_0_r.
  - cbn. rewrite page_record_again, (IH _ _ _ i) by done.
    by rewrite Nat.add_succ_r.
Qed.

Lemma pages_out_lookup_0 w urls i u :
  urls !! i = Some u →
  pages_out w 0 urls !! i = Some (MsgUrl u (page_record w i u)).
Proof.
  destruct urls as [|u' urls]; [done|]. destruct i as [|i].
  - intros [= ->]. done.
  - intros Hi. cbn. by rewrite (pages_out_lookup _ _ _ _ _ i u).
Qed.

Lemma pages_out_length w n urls : length (pages_out w n urls) = length urls.
Proof.
  revert w n; induction urls as [|u urls IH]; intros w n; [done|].
  cbn. by rewrite IH.
Qed.


Ltac run_prim :=
  unfold work_set, work_update, with_work, yield_url, modify, lift;
  cbn beta iota delta [fst snd session work out].

Ltac run_step := rewrite bind_run; run_prim.

Lemma same_but_refl m : same_but_computed m m.
Proof. by intros k ??. Qed.

Lemma same_but_extension m d e :
  same_but_computed m d → same_but_computed m (<["extension" := e]> d).
Proof. intros H k ??. rewrite lookup_insert_ne by done. by apply H. Qed.

Lemma same_but_num m d n :
  same_but_computed m d → same_but_computed m (<["num" := n]> d).
Proof. intros H k ??. rewrite lookup_insert_ne by done. by apply H. Qed.

Lemma branch_post_nothing m (a : api) d o :
  same_but_computed m d →
  branch_post m o {| session := a; work := d; out := o |}.
Proof.
  intros H. split; [done|]. exists []. by rewrite app_nil_r.
Qed.

Lemma items_single_post msp (r : run) :
  branch_post (work r) (out r) (items_single msp r).1.
Proof.
  unfold items_single. rewrite bind_run. unfold lift at 1.
  destruct (getitem msp "original_image_url") as [url|e];
    [|destruct r; apply branch_post_nothing, same_but_refl].
  rewrite bind_run. unfold lift at 1.
  destruct (str_method url) as [u|e];
    [|destruct r; apply branch_post_nothing, same_but_refl].
  cbn. split; [apply same_but_extension, same_but_refl|].
  eexists. split; [done|]. constructor; [|done].
  eexists _, _. split; [done|]. left. eauto.
Qed.

Lemma branch_post_intro m (a : api) d o l :
  same_but_computed m d →
  Forall (λ msg, ∃ url md, msg = MsgUrl url md ∧ descriptor_record m md) l →
  branch_post m o {| session := a; work := d; out := (o ++ l)%list |}.
Proof. intros ??. split; [done|]. by exists l. Qed.

Lemma descriptor_extension m url e :
  ∃ url' md, MsgUrl url (<["extension" := VStr e]> m) = MsgUrl url' md
             ∧ descriptor_record m md.
Proof. eexists _, _. split; [done|]. left. eauto. Qed.

Lemma items_ugoira_post (r : run) :
  branch_post (work r) (out r) (items_ugoira r).1.
Proof.
  destruct r as [a m o]. unfold items_ugoira.
  rewrite bind_run. unfold work_get at 1. cbn [work].
  destruct (getitem (VDict m) "id") as [id|e];
    [|apply branch_post_nothing, same_but_refl].
  rewrite bind_run. unfold call_api at 1. cbn [session work out].
  destruct (ugoira_metadata id a) as [a' [ug|e]];
    [|apply branch_post_nothing, same_but_refl].
  rewrite bind_run. unfold lift at 1.
  destruct (getitem ug "zip_urls") as [zip|e];
    [|apply branch_post_nothing, same_but_refl].
  rewrite bind_run. unfold lift at 1.
  destruct (getitem zip "medium" ≫= str_method) as [u|e];
    [|apply branch_post_nothing, same_but_refl].
  run_step. run_step. run_step.
  destruct (getitem ug "frames" ≫= py_iter) as [frames|e].
  2:{ apply branch_post_intro; [apply same_but_extension, same_but_refl|].
      constructor; [apply descriptor_extension|done]. }
  run_step.
  destruct (mapM format_frame frames) as [lines|e].
  2:{ apply branch_post_intro; [apply same_but_extension, same_but_refl|].
      constructor; [apply descriptor_extension|done]. }
  run_step. rewrite <- app_assoc, insert_insert_eq.
  apply branch_post_intro; [apply same_but_extension, same_but_refl|].
  repeat constructor; apply descriptor_extension.
Qed.

Lemma descriptor_again m md e n :
  descriptor_record m md →
  descriptor_record m
    (<["extension" := VStr e]>
       (<["num" := VStr ("_p" +:+ format_02 n)]> md)).
Proof.
  intros H. right. exists e, n. apply map_eq. intros k.
  destruct H as [[e0 ->]|(e0 & n0 & ->)];
    rewrite !lookup_insert; by repeat case_decide.
Qed.

Lemma items_pages_post m n imgs (r : run) :
  work r = m ∨ descriptor_record m (work r) →
  branch_post m (out r) (items_pages n imgs r).1.
Proof.
  revert n r. induction imgs as [|img imgs IH]; intros n [a d o] Hd.
  - cbn. apply branch_post_nothing. cbn in Hd.
    destruct Hd as [->|[[e ->]|(e & k & ->)]];
      auto using same_but_refl, same_but_extension, same_but_num.
  - assert (Hsame : same_but_computed m d).
    { cbn in Hd. destruct Hd as [->|[[e ->]|(e & k & ->)]];
        auto using same_but_refl, same_but_extension, same_but_num. }
    assert (Hrec : ∀ e, descriptor_record m
              (<["extension" := VStr e]>
                 (<["num" := VStr ("_p" +:+ format_02 n)]> d))).
    { intros e. cbn in Hd. destruct Hd as [->|Hd].
      - right. eauto.
      - by apply descriptor_again. }
    cbn [items_pages]. rewrite bind_run. unfold lift at 1.
    destruct (getitem img "image_urls" ≫= _) as [url|e];
      [|by apply branch_post_nothing].
    run_step. run_step.
    destruct (str_method url) as [u|e];
      [|by apply branch_post_nothing, same_but_num].
    run_step. run_step.
    match goal with |- context [items_pages (S n) imgs ?r'] =>
      destruct (IH (S n) r') as [Hw (l & Hl & Hall)] end.
    { right. cbn. apply Hrec. }
    split; [done|]. cbn [out] in Hl.
    eexists. rewrite Hl, <- app_assoc. split; [done|].
    constructor; [|done]. eexists _, _. split; [done|]. apply Hrec.
Qed.

Lemma items_branch_post load msp pages (r : run) :
  branch_post (work r) (out r) (items_branch load msp pages r).1.
Proof.
  unfold items_branch. rewrite bind_run. unfold work_get at 1.
  destruct (getitem (VDict (work r)) "type") as [ty|e];
    [|destruct r; apply branch_post_nothing, same_but_refl].
  destruct (eq_str ty "ugoira").
  { destruct (negb load); [|apply items_ugoira_post].
    destruct r; apply branch_post_nothing, same_but_refl. }
  rewrite bind_run. unfold work_get at 1.
  destruct (getitem (VDict (work r)) "page_count") as [pc|e];
    [|destruct r; apply branch_post_nothing, same_but_refl].
  destruct (eq_int pc 1); [apply items_single_post|].
  rewrite bind_run. unfold lift at 1.
  destruct (py_iter pages) as [imgs|e];
    [|destruct r; apply branch_post_nothing, same_but_refl].
  apply items_pages_post. by left.
Qed.


(** Whatever the fetched record looks like: either the body stops
    before it has yielded anything, or the record passed lines 37-46
    and the branch ran over the merged record. *)
Lemma items_work_cases load metadata (a : api) w o (Q : run → Prop) :
  (∀ r', out r' = o → Q r') →
  (∀ msp pages names r',
     raw_work w msp pages names →
     branch_post (merged metadata w names) o r' → Q r') →
  Q (items_work load metadata {| session := a; work := w; out := o |}).1.
Proof.
  intros Hstop Hrun. unfold items_work.
  rewrite bind_run. unfold work_get at 1. cbn [work getitem].
  destruct (w !! "user") as [user|] eqn:Hu; [|by apply Hstop].
  run_step.
  destruct (getitem user "id") as [uid|e] eqn:Hid; [|by apply Hstop].
  destruct (truthy uid) eqn:Ht; [|by apply Hstop]. cbn [negb].
  rewrite bind_run. unfold work_get at 1. cbn [work getitem].
  destruct (w !! "meta_single_page") as [msp|] eqn:Hs; [|by apply Hstop].
  rewrite bind_run. unfold work_get at 1. cbn [work getitem].
  destruct (w !! "meta_pages") as [pages|] eqn:Hp; [|by apply Hstop].
  rewrite bind_run. unfold work_del at 1. cbn [work]. rewrite Hs.
  run_prim.
  rewrite bind_run. unfold work_del at 1. cbn [work].
  rewrite lookup_delete_ne by done.
  destruct (w !! "image_urls") as [iu|] eqn:Hi; [|by apply Hstop].
  run_prim.
  rewrite bind_run. unfold work_del at 1. cbn [work].
  rewrite !lookup_delete_ne, Hp by done.
  run_prim. run_step.
  rewrite bind_run. unfold work_get at 1. cbn [work getitem].
  rewrite lookup_insert_ne, !lookup_delete_ne by done.
  destruct (w !! "tags") as [tags|] eqn:Htg; [|by apply Hstop].
  run_step.
  destruct (py_iter tags ≫= mapM (λ tag, getitem tag "name"))
    as [names|e] eqn:Hn; [|by apply Hstop].
  run_step. run_step.
  apply (Hrun msp pages names).
  - constructor; eauto 10.
  - apply (items_branch_post load msp pages
             {| session := a; work := merged metadata w names; out := o |}).
Qed.


Lemma held_after_shares (r : run) url md :
  MsgUrl url md ∈ held_after r → md = work r.
Proof.
  unfold held_after. intros (msg & Hm & _)%list_elem_of_fmap.
  destruct msg; by inversion Hm.
Qed.

(** [items] over a single work, as [PixivWorkExtractor] runs it. *)
Lemma items_one load metadata w (a : api) :
  items load metadata [w] a
  = let '(r, x) := items_work load metadata
                     {| session := a; work := w;
                        out := [MsgVersion 1; MsgDirectory metadata] |} in
    (session r, [work r], out r, x).
Proof.
  unfold items. cbn [items_loop].
  by destruct (items_work _ _ _) as [r [[]|e]].
Qed.

(** *** The page suffix *)

Lemma pretty_N_go_length x s :
  (String.length s ≤ String.length (pretty_N_go x s))%nat.
Proof.
  revert s. induction (N.lt_wf_0 x) as [x _ IH]; intros s.
  destruct (decide (x = 0)%N) as [->|Hx]; [by rewrite pretty_N_go_0|].
  rewrite pretty_N_go_step by lia.
  etrans; [|apply IH; apply N.div_lt; lia]. simpl. lia.
Qed.

Lemma format_02_length n : (2 ≤ String.length (format_02 n))%nat.
Proof.
  unfold format_02, pretty, pretty_nat, pretty, pretty_N.
  destruct (n <? 10)%nat eqn:Hn.
  - apply Nat.ltb_lt in Hn. case_decide as H0; [simpl; lia|].
    rewrite pretty_N_go_step by lia.
    cbn [String.length]. apply le_n_S.
    etrans; [|apply pretty_N_go_length]. simpl. lia.
  - apply Nat.ltb_ge in Hn. case_decide as H0; [lia|].
    rewrite pretty_N_go_step by lia.
    rewrite pretty_N_go_step.
    2:{ apply N.div_str_pos. lia. }
    etrans; [|apply pretty_N_go_length]. simpl. lia.
Qed.

Lemma format_02_two_digits n :
  (n < 100)%nat → String.length (format_02 n) = 2%nat.
Proof.
  intros Hn.
  unfold format_02, pretty, pretty_nat, pretty, pretty_N.
  destruct (n <? 10)%nat eqn:H10.
  - apply Nat.ltb_lt in H10. case_decide as H0; [done|].
    rewrite pretty_N_go_step by lia.
    rewrite (N.div_small (N.of_nat n) 10) by lia.
    by rewrite pretty_N_go_0.
  - apply Nat.ltb_ge in H10. case_decide as H0; [lia|].
    rewrite pretty_N_go_step by lia.
    rewrite pretty_N_go_step.
    2:{ apply N.div_str_pos. lia. }
    assert ((N.of_nat n `div` 10) `div` 10 = 0)%N as ->.
    { rewrite N.Div0.div_div. apply N.div_small. lia. }
    by rewrite pretty_N_go_0.
Qed.

(** *** Resolving a work of each shape *)

Lemma merged_field metadata w names k :
  policy_context metadata →
  k = "type" ∨ k = "page_count" ∨ k = "id" →
  merged metadata w names !! k = w !! k.
Proof.
  intros Hc Hk. apply merged_lookup.
  - apply policy_context_lookup; [done|].
    apply not_context_key; by destruct Hk as [->|[->| ->]].
  - by destruct Hk as [->|[->| ->]].
  - by destruct Hk as [->|[->| ->]].
  - by destruct Hk as [->|[->| ->]].
  - by destruct Hk as [->|[->| ->]].
  - by destruct Hk as [->|[->| ->]].
Qed.

(** C10: a work that is not an animation goes to the single-image code
    exactly when [page_count == 1], whatever its type tag says: it then
    yields the one descriptor of [meta_single_page]; otherwise the loop
    over [meta_pages] runs. *)
Theorem page_count_selects_branch load metadata w msp pages names
      (a : api) ty pc :
  raw_work w msp pages names →
  policy_context metadata →
  w !! "type" = Some ty → eq_str ty "ugoira" = false →
  w !! "page_count" = Some pc →
  (eq_int pc 1 = true →
   ∀ u, getitem msp "original_image_url" = Ok (VStr u) →
     let md := <["extension" := VStr (rpartition_tail "." u)]>
                 (merged metadata w names) in
     resolve load metadata w a
     = ({| session := a; work := md; out := [MsgUrl u md] |}, Ok tt))
  ∧ (eq_int pc 1 = false →
     ∀ imgs, py_iter pages = Ok imgs →
       resolve load metadata w a
       = items_pages 0 imgs
           {| session := a; work := merged metadata w names; out := [] |}).
Proof.
  intros Hw Hc Hty Hne Hpc. unfold resolve.
  rewrite (items_work_prelude _ _ _ _ _ _ _ _ Hw).
  split.
  - intros H1 u Hu. cbn zeta.
    by rewrite (items_branch_single load msp _ ty pc u);
      cbn [work]; rewrite ?merged_field by auto.
  - intros H1 imgs Hi.
    by rewrite (items_branch_pages load msp _ ty pc pages imgs);
      cbn [work]; rewrite ?merged_field by auto.
Qed.

(** C2: an animation yields nothing when loading is off; when it is on
    and the metadata request is answered, it yields two descriptors: the
    archive with extension [zip] (its address non-empty when the one the
    server gave is), then the text with extension [txt] whose payload
    is one line per frame. *)
Theorem ugoira_descriptors metadata w msp pages names (a : api) :
  raw_work w msp pages names →
  policy_context metadata →
  w !! "type" = Some (VStr "ugoira") →
  resolve false metadata w a
  = ({| session := a; work := merged metadata w names; out := [] |}, Ok tt)
  ∧ ∀ id a' ug zip u frames fds,
      w !! "id" = Some id →
      ugoira_metadata id a = (a', Ok ug) →
      getitem ug "zip_urls" = Ok zip →
      getitem zip "medium" = Ok (VStr u) →
      getitem ug "frames" = Ok (VList frames) →
      Forall2 (λ frame fd, getitem frame "file" = Ok (VStr fd.1)
                           ∧ getitem frame "delay" = Ok (VInt fd.2))
              frames fds →
      ∃ r url lines zip_md txt_md,
        resolve true metadata w a = (r, Ok tt)
        ∧ out r = [MsgUrl url zip_md;
                   MsgUrl ("text:" +:+ String.concat "" lines) txt_md]
        ∧ url = replace "_ugoira600x600" "_ugoira1920x1080" u
        ∧ (u ≠ "" → url ≠ "")
        ∧ zip_md = <["extension" := VStr "zip"]> (merged metadata w names)
        ∧ txt_md = <["extension" := VStr "txt"]> (merged metadata w names)
        ∧ zip_md !! "extension" = Some (VStr "zip")
        ∧ txt_md !! "extension" = Some (VStr "txt")
        ∧ lines = (λ fd : string * Z,
                     fd.1 +:+ " " +:+ pretty fd.2 +:+ newline) <$> fds
        ∧ length lines = length frames.
Proof.
  intros Hw Hc Hty. unfold resolve.
  rewrite !(items_work_prelude _ _ _ _ _ _ _ _ Hw).
  split.
  - apply items_branch_ugoira_off. cbn [work].
    by rewrite merged_field by auto.
  - intros id a' ug zip u frames fds Hid Hug Hz Hm Hf Hfr.
    eexists _, _, _, _, _. split.
    { eapply items_branch_ugoira_on; eauto;
        by rewrite merged_field by auto. }
    cbn [out app]. split; [done|]. split; [done|].
    split; [apply replace_nonempty|].
    split; [done|]. split; [done|].
    rewrite !lookup_insert_eq. split; [done|]. split; [done|].
    split; [done|].
    rewrite length_fmap. symmetry. by eapply Forall2_length.
Qed.

(** C3: when the address the server gives for the archive holds the
    marker [_ugoira600x600], the address of the archive descriptor is
    that address with the marker exchanged for [_ugoira1920x1080]: the
    text before the first marker and the text after it are kept (a
    further marker in the text after it is exchanged as well). *)
Theorem ugoira_url_rewrite metadata w msp pages names (a a' : api)
      id ug zip u frames fds :
  raw_work w msp pages names →
  policy_context metadata →
  w !! "type" = Some (VStr "ugoira") →
  w !! "id" = Some id →
  ugoira_metadata id a = (a', Ok ug) →
  getitem ug "zip_urls" = Ok zip →
  getitem zip "medium" = Ok (VStr u) →
  getitem ug "frames" = Ok (VList frames) →
  Forall2 (λ frame fd, getitem frame "file" = Ok (VStr fd.1)
                       ∧ getitem frame "delay" = Ok (VInt fd.2))
          frames fds →
  contains "_ugoira600x600" u = true →
  ∃ r url md rest pre post,
    resolve true metadata w a = (r, Ok tt)
    ∧ out r = MsgUrl url md :: rest
    ∧ u = pre +:+ "_ugoira600x600" +:+ post
    ∧ contains "_ugoira600x600" pre = false
    ∧ url = pre +:+ "_ugoira1920x1080"
            +:+ replace "_ugoira600x600" "_ugoira1920x1080" post
    ∧ (contains "_ugoira600x600" post = false →
       url = pre +:+ "_ugoira1920x1080" +:+ post).
Proof.
  intros Hw Hc Hty Hid Hug Hz Hm Hf Hfr Hin. unfold resolve.
  rewrite (items_work_prelude _ _ _ _ _ _ _ _ Hw).
  destruct (replace_first _ _ "_ugoira1920x1080" _ Hin)
    as (pre & post & Hu & Hpre & Hrep & Hpost).
  eexists _, _, _, _, pre, post. split.
  { eapply items_branch_ugoira_on; eauto;
      by rewrite merged_field by auto. }
  cbn [out app]. split; [done|]. auto.
Qed.

(** C4: a work of [k > 1] pages, with one entry of [meta_pages] per
    page, yields [k] descriptors in the order of the pages; the one of
    page [n] (counted from 0) has the suffix ["_p"] followed by [n] in
    at least two digits: two for every [n < 100], the plain decimal
    from 100 on. *)
Theorem pages_suffixes load metadata w msp pages names (a : api)
      ty k imgs urls :
  raw_work w msp pages names →
  policy_context metadata →
  w !! "type" = Some ty → eq_str ty "ugoira" = false →
  w !! "page_count" = Some (VInt k) → (1 < k)%Z →
  py_iter pages = Ok imgs →
  Forall2 (λ img u, page_url img = Ok (VStr u)) imgs urls →
  length urls = Z.to_nat k →
  ∃ r,
    resolve load metadata w a = (r, Ok tt)
    ∧ session r = a
    ∧ length (out r) = Z.to_nat k
    ∧ (∀ n u, urls !! n = Some u →
         ∃ md, out r !! n = Some (MsgUrl u md)
           ∧ md = page_record (merged metadata w names) n u
           ∧ md !! "num" = Some (VStr ("_p" +:+ format_02 n))
           ∧ md !! "extension" = Some (VStr (rpartition_tail "." u)))
    ∧ (∀ n, (2 ≤ String.length (format_02 n))%nat
            ∧ ((n < 100)%nat → String.length (format_02 n) = 2%nat)
            ∧ ((n < 10)%nat → format_02 n = "0" +:+ pretty n)
            ∧ ((10 ≤ n)%nat → format_02 n = pretty n)).
Proof.
  intros Hw Hc Hty Hne Hpc Hk Hi Hurls Hlen.
  unfold resolve. rewrite (items_work_prelude _ _ _ _ _ _ _ _ Hw).
  rewrite (items_branch_pages load msp _ ty (VInt k) pages imgs);
    cbn [work]; rewrite ?merged_field by auto; try done.
  2:{ cbn. lia. }
  rewrite (items_pages_run _ _ _ _ Hurls). cbn [session work out app].
  eexists. split; [done|]. cbn [session out].
  split; [done|]. split; [by rewrite pages_out_length|].
  split.
  - intros n u Hn. eexists. split; [by apply pages_out_lookup_0|].
    split; [done|]. unfold page_record.
    rewrite lookup_insert_ne, !lookup_insert_eq by done. done.
  - intros n. split; [apply format_02_length|].
    split; [apply format_02_two_digits|].
    unfold format_02. split; intros Hn.
    + by apply Nat.ltb_lt in Hn as ->.
    + by apply Nat.ltb_ge in Hn as ->.
Qed.


(** *** The record of a descriptor, and what is left of the work *)

(** C1 (as the code has it): every descriptor carries the fields of the
    work (page keys removed, empty suffix, tags as a list of names)
    with the context merged over them, so that the context wins where
    both have a key, and over both the extension the resolver computed
    and, for the pages of a multi-image work, the page suffix. *)
Theorem descriptor_overlay_order load metadata w (a : api) url md :
  MsgUrl url md ∈ out (resolve load metadata w a).1 →
  ∃ msp pages names,
    raw_work w msp pages names
    ∧ descriptor_record (merged metadata w names) md
    ∧ (∃ ext, md !! "extension" = Some (VStr ext))
    ∧ (∀ k, k ≠ "extension" → k ≠ "num" →
         md !! k = match metadata !! k with
                   | Some v => Some v
                   | None => work_fields w names !! k
                   end).
Proof.
  unfold resolve. apply items_work_cases.
  - intros r' -> Hin. by apply elem_of_nil in Hin.
  - intros msp pages names r' Hw [_ (l & -> & Hall)] Hin.
    cbn [app] in Hin.
    rewrite Forall_forall in Hall.
    destruct (Hall _ Hin) as (url' & md' & [= <- <-] & Hrec).
    exists msp, pages, names. split; [done|]. split; [done|].
    split.
    + destruct Hrec as [[e ->]|(e & n & ->)];
        exists e; by rewrite lookup_insert_eq.
    + intros k Hk1 Hk2.
      assert (md !! k = merged metadata w names !! k) as ->.
      { destruct Hrec as [[e ->]|(e & n & ->)];
          by rewrite !lookup_insert_ne by done. }
      unfold merged. destruct (metadata !! k) as [v|] eqn:Hm.
      * by apply lookup_union_Some_l.
      * by apply lookup_union_r.
Qed.

(** C9 (as the code has it): the resolver works on the fetched record
    itself.  A work whose owner id is falsy is left as it is; any other
    work that passes lines 37-46 ends up as the merged record, up to
    [extension] and [num]: the three page keys are gone and the tags
    are the list of names, unless the context supplies such a key. *)
Theorem resolve_work_after load metadata w (a : api) :
  (∀ user uid,
     w !! "user" = Some user → getitem user "id" = Ok uid →
     truthy uid = false →
     resolve load metadata w a
     = ({| session := a; work := w; out := [] |}, Ok tt))
  ∧ (∀ msp pages names,
       raw_work w msp pages names →
       let w' := work (resolve load metadata w a).1 in
       same_but_computed (merged metadata w names) w'
       ∧ (∀ k, k = "meta_single_page" ∨ k = "image_urls"
               ∨ k = "meta_pages" →
               metadata !! k = None → w' !! k = None)
       ∧ (metadata !! "tags" = None → w' !! "tags" = Some (VList names))).
Proof.
  split.
  - intros user uid Hu Hid Ht. by eapply items_work_skip.
  - intros msp pages names Hw. cbn zeta. unfold resolve.
    rewrite (items_work_prelude _ _ _ _ _ _ _ _ Hw).
    destruct (items_branch_post load msp pages
                {| session := a; work := merged metadata w names;
                   out := [] |}) as [Hsame _].
    cbn [work] in Hsame. split; [done|]. split.
    + intros k Hk Hm.
      rewrite Hsame by (by destruct Hk as [->|[->| ->]]).
      unfold merged, work_fields. rewrite lookup_union_r by done.
      destruct Hk as [->|[->| ->]];
        rewrite !lookup_insert_ne by done;
        rewrite ?(lookup_delete_ne _ "meta_pages") by done;
        rewrite ?(lookup_delete_ne _ "image_urls") by done;
        by rewrite lookup_delete_eq.
    + intros Hm. rewrite Hsame by done.
      unfold merged, work_fields. rewrite lookup_union_r by done.
      by rewrite lookup_insert_eq.
Qed.

End extractor_facts.

(** ** The ranking extractor *)

Section ranking_facts.
Context {U : Unicode}.

Lemma init_mode_run query log :
  let name := lower (default "daily" (query !! "mode")) in
  (∀ api_mode, modes !! name = Some api_mode →
     init_mode query log = (log, Ok (name, api_mode)))
  ∧ (modes !! name = None →
     init_mode query log
     = ((log ++ [EvLogWarning ("invalid mode '" +:+ name +:+ "'")])%list,
        Ok ("daily", "day"))).
Proof.
  cbn zeta. unfold init_mode. split.
  - intros api_mode H. rewrite bind_run.
    rewrite bool_decide_eq_true_2 by (by rewrite H).
    unfold mret, M_ret. by rewrite H.
  - intros H. rewrite bind_run.
    rewrite bool_decide_eq_false_2 by (rewrite H; by intros [? [=]]).
    done.
Qed.

Lemma hyphenated_nonempty d : String.eqb (hyphenated d) "" = false.
Proof.
  unfold hyphenated. destruct (slice 0 4 d); [done|]. by rewrite app_String.
Qed.

(** The test of line 291 is the one the specification words: eight
    characters, all of them decimal digits. *)
Lemma date_check d :
  (len d =? 8)%nat && isdecimal d = true ↔ eight_digits d.
Proof.
  unfold eight_digits, isdecimal, len.
  rewrite !andb_true_iff, Nat.eqb_eq, negb_true_iff, forallb_forall,
    Forall_forall.
  split.
  - intros (Hl & _ & Hall). split; [done|].
    intros c Hc. apply Hall. by apply list_elem_of_In.
  - intros [Hl Hall]. split; [done|]. split.
    + destruct d; [done|]. done.
    + intros c Hc. apply Hall. by apply list_elem_of_In.
Qed.

Lemma hyphenated_chars d y1 y2 y3 y4 m1 m2 d1 d2 :
  chars d = [y1; y2; y3; y4; m1; m2; d1; d2] →
  hyphenated d
  = y1 +:+ y2 +:+ y3 +:+ y4 +:+ "-" +:+ m1 +:+ m2 +:+ "-" +:+ d1 +:+ d2.
Proof.
  intros H. unfold hyphenated, slice. rewrite H.
  cbn [Nat.sub firstn skipn str_join foldr].
  by rewrite !str_app_empty_r, !str_app_assoc.
Qed.

Lemma init_date_run yesterday query log d :
  query !! "date" = Some d → d ≠ "" →
  init_date yesterday query log
  = if (len d =? 8)%nat && isdecimal d
    then (log, Ok (hyphenated d))
    else ((log ++ [EvLogWarning ("invalid date '" +:+ d +:+ "'")])%list,
          Ok yesterday).
Proof.
  intros Hq Hd. unfold init_date. rewrite Hq.
  assert (String.eqb d "" = false) as Hne by (by apply String.eqb_neq).
  rewrite bind_run, Hne. cbn [negb].
  destruct ((len d =? 8)%nat && isdecimal d) eqn:Hok.
  - cbn. by rewrite hyphenated_nonempty.
  - done.
Qed.

Lemma init_run yesterday query log :
  ∃ name api_mode log1 d log2,
    init_mode query log = (log1, Ok (name, api_mode))
    ∧ init_date yesterday query log1 = (log2, Ok d)
    ∧ __init__ yesterday query log
      = (log2, Ok {| mode := api_mode; date := d;
                     ranking_info :=
                       <["mode" := VStr name]> (<["date" := VStr d]> ∅) |}).
Proof.
  destruct (init_mode_run query log) as [Hsome Hnone].
  assert (∃ name api_mode log1,
            init_mode query log = (log1, Ok (name, api_mode)))
    as (name & api_mode & log1 & Hm).
  { destruct (modes !! lower (default "daily" (query !! "mode")))
      as [m|] eqn:Hl; eauto. }
  assert (∃ d log2, init_date yesterday query log1 = (log2, Ok d))
    as (d & log2 & Hd).
  { unfold init_date.
    destruct (query !! "date") as [d|]; [|by eexists _, _].
    destruct (String.eqb d "") eqn:He.
    { rewrite bind_run. cbn. rewrite He. by eexists _, _. }
    rewrite bind_run. cbn [negb].
    destruct ((len d =? 8)%nat && isdecimal d).
    - cbn. rewrite hyphenated_nonempty. by eexists _, _.
    - by eexists _, _. }
  exists name, api_mode, log1, d, log2. split; [done|]. split; [done|].
  unfold __init__. rewrite bind_run, Hm. rewrite bind_run, Hd. done.
Qed.

Lemma init_date_log yesterday query log :
  ∃ dw, (init_date yesterday query log).1 = (log ++ dw)%list.
Proof.
  unfold init_date.
  destruct (query !! "date") as [d|]; [|exists []; by rewrite app_nil_r].
  destruct (String.eqb d "") eqn:He.
  { rewrite bind_run. cbn. rewrite He. exists []. by rewrite app_nil_r. }
  rewrite bind_run. cbn [negb].
  destruct ((len d =? 8)%nat && isdecimal d).
  - cbn. rewrite hyphenated_nonempty. exists []. by rewrite app_nil_r.
  - by eexists.
Qed.

(** C7 (as the code has it): the mode of the query, in lower case as
    [str.lower] gives it and [daily] when the query has none, is looked
    up in [modes].  A name found there is kept; any other name is
    reported in a warning and replaced by [daily].  The request to the
    ranking endpoint carries the API value of the name ([day] for
    [daily], [week_r18] for [weekly_r18]); the ranking context carries
    the name itself. *)
Theorem ranking_mode_mapping yesterday query log :
  let name := lower (default "daily" (query !! "mode")) in
  ∃ self log',
    __init__ yesterday query log = (log', Ok self)
    ∧ (∀ api_mode, modes !! name = Some api_mode →
         mode self = api_mode
         ∧ ranking_info self !! "mode" = Some (VStr name)
         ∧ init_mode query log = (log, Ok (name, api_mode)))
    ∧ (modes !! name = None →
         mode self = "day"
         ∧ ranking_info self !! "mode" = Some (VStr "daily")
         ∧ EvLogWarning ("invalid mode '" +:+ name +:+ "'") ∈ log')
    ∧ ranking_get_metadata self !! "ranking"
      = Some (VDict (ranking_info self))
    ∧ (∀ (T : Transport) fuel,
         ranking_works fuel self
         = _pagination fuel "v1/illust/ranking"
             (<["mode" := VStr (mode self)]>
                (<["date" := VStr (date self)]> ∅))).
Proof.
  intros name.
  destruct (init_run yesterday query log)
    as (nm & am & log1 & d & log2 & Hm & Hd & Hinit).
  destruct (init_mode_run query log) as [Hsome Hnone]. fold name in Hsome, Hnone.
  eexists _, log2. split; [exact Hinit|]. cbn [mode ranking_info date].
  split; [|split; [|split]].
  - intros api_mode H. pose proof (Hsome _ H) as Hm'.
    rewrite Hm' in Hm. injection Hm as <- <- <-.
    by rewrite lookup_insert_eq.
  - intros H. rewrite (Hnone H) in Hm. injection Hm as <- <- <-.
    rewrite lookup_insert_eq. split; [done|]. split; [done|].
    destruct (init_date_log yesterday query
                (log ++ [EvLogWarning ("invalid mode '" +:+ name +:+ "'")]))
      as [dw Hdw].
    rewrite Hd in Hdw. cbn [fst] in Hdw. rewrite Hdw.
    rewrite !elem_of_app, list_elem_of_singleton. auto.
  - unfold ranking_get_metadata. by rewrite lookup_insert_eq.
  - done.
Qed.

Lemma eight_ascii_digits {L : UnicodeLaws U} c1 c2 c3 c4 c5 c6 c7 c8 :
  let d := String c1 (String c2 (String c3 (String c4
             (String c5 (String c6 (String c7 (String c8 ""))))))) in
  is_ascii d = true → all_chars is_digit d = true →
  chars d = (λ c, String c "") <$> [c1; c2; c3; c4; c5; c6; c7; c8]
  ∧ eight_digits d.
Proof.
  intros d Ha Hd. subst d.
  assert (Hch : chars (String c1 (String c2 (String c3 (String c4
                  (String c5 (String c6 (String c7 (String c8 ""))))))))
                = (λ c, String c "") <$> [c1; c2; c3; c4; c5; c6; c7; c8]).
  { cbn [is_ascii all_chars] in Ha.
    repeat (apply andb_true_iff in Ha as [? Ha]).
    rewrite !chars_ascii; [done|cbn [is_ascii all_chars]..];
      repeat (apply andb_true_iff; split); done. }
  split; [done|]. unfold eight_digits. rewrite Hch. split; [done|].
  cbn [is_ascii all_chars] in Ha, Hd.
  repeat (apply andb_true_iff in Ha as [? Ha]).
  repeat (apply andb_true_iff in Hd as [? Hd]).
  cbn [fmap list_fmap].
  repeat constructor;
    (rewrite decimal_on_ascii; [done|cbn [is_ascii all_chars]];
     by apply andb_true_iff).
Qed.

(** C8: a date of the query that is eight decimal digits becomes
    [YYYY-MM-DD], its first four characters, the next two and the last
    two with hyphens between them; any other non-empty date is reported
    in a warning and replaced by yesterday's date (UTC).  So [20170818]
    becomes [2017-08-18], the interpreter reading ASCII digits as
    digits, and [2017-08-18], which is ten characters, is replaced. *)
Theorem ranking_date_default yesterday query log d :
  query !! "date" = Some d → d ≠ "" →
  ∃ self log',
    __init__ yesterday query log = (log', Ok self)
    ∧ ranking_info self !! "date" = Some (VStr (date self))
    ∧ (∀ y1 y2 y3 y4 m1 m2 d1 d2,
         chars d = [y1; y2; y3; y4; m1; m2; d1; d2] →
         Forall (λ c, decimal c = true) [y1; y2; y3; y4; m1; m2; d1; d2] →
         date self
         = y1 +:+ y2 +:+ y3 +:+ y4 +:+ "-" +:+ m1 +:+ m2 +:+ "-"
           +:+ d1 +:+ d2
         ∧ log' = (init_mode query log).1)
    ∧ (¬ eight_digits d →
       date self = yesterday
       ∧ log' = ((init_mode query log).1
                 ++ [EvLogWarning ("invalid date '" +:+ d +:+ "'")])%list)
    ∧ (UnicodeLaws U → d = "20170818" → date self = "2017-08-18")
    ∧ (d = "2017-08-18" →
       date self = yesterday
       ∧ EvLogWarning "invalid date '2017-08-18'" ∈ log').
Proof.
  intros Hq Hne.
  destruct (init_run yesterday query log)
    as (nm & am & log1 & d' & log2 & Hm & Hd & Hinit).
  rewrite (init_date_run _ _ _ _ Hq Hne) in Hd.
  eexists _, log2. split; [exact Hinit|]. cbn [date ranking_info].
  rewrite Hm. cbn [fst].
  split.
  { by rewrite lookup_insert_ne, lookup_insert_eq by done. }
  assert (Hgood : ∀ y1 y2 y3 y4 m1 m2 d1 d2,
            chars d = [y1; y2; y3; y4; m1; m2; d1; d2] →
            Forall (λ c, decimal c = true) [y1; y2; y3; y4; m1; m2; d1; d2] →
            d' = y1 +:+ y2 +:+ y3 +:+ y4 +:+ "-" +:+ m1 +:+ m2 +:+ "-"
                 +:+ d1 +:+ d2
            ∧ log2 = log1).
  { intros y1 y2 y3 y4 m1 m2 d1 d2 Hch Hdec.
    assert (eight_digits d) as Hok%date_check.
    { unfold eight_digits. by rewrite Hch. }
    rewrite Hok in Hd. injection Hd as <- <-.
    by rewrite (hyphenated_chars _ _ _ _ _ _ _ _ _ Hch). }
  assert (Hbad : ¬ eight_digits d →
                 d' = yesterday
                 ∧ log2 = (log1 ++ [EvLogWarning
                                      ("invalid date '" +:+ d +:+ "'")])%list).
  { intros Hno.
    destruct ((len d =? 8)%nat && isdecimal d) eqn:Hok.
    - by apply date_check in Hok.
    - by injection Hd as <- <-. }
  split; [done|]. split; [done|]. split.
  - intros L ->.
    destruct (eight_ascii_digits (L := L) "2" "0" "1" "7" "0" "8" "1" "8")
      as [Hch [_ Hdec]]; [done..|].
    cbn zeta in Hch, Hdec. rewrite Hch in Hdec.
    by destruct (Hgood _ _ _ _ _ _ _ _ Hch Hdec) as [-> _].
  - intros ->. destruct Hbad as [-> ->].
    { intros [Hl _]. by vm_compute in Hl. }
    split; [done|]. rewrite elem_of_app, list_elem_of_singleton. auto.
Qed.

End ranking_facts.

(** ** The definitions at work on the scripted server *)

Lemma demo_context_policy : policy_context demo_context.
Proof.
  unfold policy_context, demo_context, context_keys.
  rewrite dom_insert_L, dom_empty_L. intros k Hk.
  apply elem_of_union in Hk as [->%elem_of_singleton|[]%elem_of_empty].
  rewrite !elem_of_union, !elem_of_singleton. auto.
Qed.

Lemma demo_single_raw :
  raw_work demo_single
    (obj [("original_image_url",
           VStr "https://i.pximg.net/img-original/12345_p0.png")])
    (VList []) demo_names.
Proof.
  constructor.
  - exists (obj [("id", VInt 11); ("name", VStr "artist")]), (VInt 11).
    repeat split; vm_compute; reflexivity.
  - vm_compute; reflexivity.
  - vm_compute; reflexivity.
  - eexists. vm_compute. reflexivity.
  - eexists. split; vm_compute; reflexivity.
Qed.

Lemma demo_manga_raw :
  raw_work demo_manga (obj [])
    (VList ((λ u, obj [("image_urls", obj [("original", VStr u)])])
              <$> demo_manga_urls))
    demo_names.
Proof.
  constructor.
  - exists (obj [("id", VInt 11); ("name", VStr "artist")]), (VInt 11).
    repeat split; vm_compute; reflexivity.
  - vm_compute; reflexivity.
  - vm_compute; reflexivity.
  - eexists. vm_compute. reflexivity.
  - eexists. split; vm_compute; reflexivity.
Qed.

Lemma demo_anim_raw : raw_work demo_anim (obj []) (VList []) demo_names.
Proof.
  constructor.
  - exists (obj [("id", VInt 11); ("name", VStr "artist")]), (VInt 11).
    repeat split; vm_compute; reflexivity.
  - vm_compute; reflexivity.
  - vm_compute; reflexivity.
  - eexists. vm_compute. reflexivity.
  - eexists. split; vm_compute; reflexivity.
Qed.

Lemma page_count_selects_branch_witness :
  resolve true demo_context demo_single demo_api
  = ({| session := demo_api;
        work := <["extension" := VStr "png"]>
                  (merged demo_context demo_single demo_names);
        out := [MsgUrl "https://i.pximg.net/img-original/12345_p0.png"
                  (<["extension" := VStr "png"]>
                     (merged demo_context demo_single demo_names))] |},
     Ok tt).
Proof.
  refine (proj1 (page_count_selects_branch true demo_context demo_single
                   _ _ _ demo_api (VStr "illust") (VInt 1)
                   demo_single_raw demo_context_policy _ _ _) _
            "https://i.pximg.net/img-original/12345_p0.png" _).
  - vm_compute; reflexivity.
  - reflexivity.
  - vm_compute; reflexivity.
  - reflexivity.
  - vm_compute; reflexivity.
Defined.

Lemma demo_single_resolve :
  resolve true demo_context demo_single demo_api
  = ({| session := demo_api;
        work := <["extension" := VStr "png"]>
                  (merged demo_context demo_single demo_names);
        out := [MsgUrl "https://i.pximg.net/img-original/12345_p0.png"
                  (<["extension" := VStr "png"]>
                     (merged demo_context demo_single demo_names))] |},
     Ok tt).
Proof. vm_compute. reflexivity. Qed.

(** C1, as the specification words it, fails: the owner of the work is
    replaced by the [user] of the context, so the record is not the one
    in which the fields of the work are laid over the context. *)
Lemma context_overrides_work_fields :
  ∃ url md,
    out (resolve true demo_context demo_single demo_api).1 = [MsgUrl url md]
    ∧ md !! "user" = demo_context !! "user"
    ∧ md !! "user" ≠ demo_single !! "user"
    ∧ md ≠ <["extension" := VStr "png"]>
             (spec_merged demo_context demo_single demo_names).
Proof.
  rewrite demo_single_resolve. eexists _, _. split; [reflexivity|].
  split; [vm_compute; reflexivity|].
  assert (Hname : ∀ o : option value,
            match o with Some (VDict d) => d !! "name" | _ => None end
            = Some (VStr "artist") → o ≠ demo_context !! "user").
  { intros o Ho ->. vm_compute in Ho. discriminate. }
  split.
  - intros H. symmetry in H. revert H. apply Hname.
    vm_compute. reflexivity.
  - intros H. apply (f_equal (λ d : dict, d !! "user")) in H.
    revert H. intros H. symmetry in H. revert H.
    replace ((<["extension" := VStr "png"]>
                (merged demo_context demo_single demo_names)) !! "user")
      with (demo_context !! "user") by (vm_compute; reflexivity).
    apply Hname. vm_compute. reflexivity.
Qed.

Lemma descriptor_overlay_order_witness :
  ∃ msp pages names,
    raw_work demo_single msp pages names
    ∧ descriptor_record (merged demo_context demo_single names)
        (<["extension" := VStr "png"]>
           (merged demo_context demo_single demo_names))
    ∧ (∃ ext, (<["extension" := VStr "png"]>
                 (merged demo_context demo_single demo_names))
              !! "extension" = Some (VStr ext))
    ∧ (∀ k, k ≠ "extension" → k ≠ "num" →
         (<["extension" := VStr "png"]>
            (merged demo_context demo_single demo_names)) !! k
         = match demo_context !! k with
           | Some v => Some v
           | None => work_fields demo_single names !! k
           end).
Proof.
  apply (descriptor_overlay_order true demo_context demo_single demo_api
           "https://i.pximg.net/img-original/12345_p0.png").
  rewrite demo_single_resolve. cbn [fst out]. apply list_elem_of_singleton.
  reflexivity.
Defined.

Lemma ugoira_descriptors_witness :
  resolve false demo_context demo_anim demo_api
  = ({| session := demo_api;
        work := merged demo_context demo_anim demo_names; out := [] |},
     Ok tt)
  ∧ ∃ r url lines zip_md txt_md,
      resolve true demo_context demo_anim demo_api = (r, Ok tt)
      ∧ out r = [MsgUrl url zip_md;
                 MsgUrl ("text:" +:+ String.concat "" lines) txt_md]
      ∧ url = replace "_ugoira600x600" "_ugoira1920x1080" demo_medium
      ∧ (demo_medium ≠ "" → url ≠ "")
      ∧ zip_md = <["extension" := VStr "zip"]>
                   (merged demo_context demo_anim demo_names)
      ∧ txt_md = <["extension" := VStr "txt"]>
                   (merged demo_context demo_anim demo_names)
      ∧ zip_md !! "extension" = Some (VStr "zip")
      ∧ txt_md !! "extension" = Some (VStr "txt")
      ∧ lines = (λ fd : string * Z,
                   fd.1 +:+ " " +:+ pretty fd.2 +:+ newline) <$> demo_delays
      ∧ length lines = length demo_frames.
Proof.
  pose proof (ugoira_descriptors demo_context demo_anim _ _ _ demo_api
                demo_anim_raw demo_context_policy eq_refl) as [Hoff Hon].
  split; [exact Hoff|].
  eapply (Hon (VInt 66806629) _ _ _ demo_medium demo_frames demo_delays).
  - vm_compute; reflexivity.
  - vm_compute; reflexivity.
  - vm_compute; reflexivity.
  - vm_compute; reflexivity.
  - vm_compute; reflexivity.
  - repeat constructor.
Defined.

Lemma ugoira_url_rewrite_witness :
  ∃ r url md rest pre post,
    resolve true demo_context demo_anim demo_api = (r, Ok tt)
    ∧ out r = MsgUrl url md :: rest
    ∧ demo_medium = pre +:+ "_ugoira600x600" +:+ post
    ∧ contains "_ugoira600x600" pre = false
    ∧ url = pre +:+ "_ugoira1920x1080"
            +:+ replace "_ugoira600x600" "_ugoira1920x1080" post
    ∧ (contains "_ugoira600x600" post = false →
       url = pre +:+ "_ugoira1920x1080" +:+ post).
Proof.
  eapply (ugoira_url_rewrite demo_context demo_anim _ _ _ demo_api _
            (VInt 66806629) _ _ demo_medium demo_frames demo_delays
            demo_anim_raw demo_context_policy).
  - vm_compute; reflexivity.
  - vm_compute; reflexivity.
  - vm_compute; reflexivity.
  - vm_compute; reflexivity.
  - vm_compute; reflexivity.
  - vm_compute; reflexivity.
  - repeat constructor.
  - vm_compute; reflexivity.
Defined.

Lemma pages_suffixes_witness :
  ∃ r,
    resolve true demo_context demo_manga demo_api = (r, Ok tt)
    ∧ session r = demo_api
    ∧ length (out r) = Z.to_nat 3
    ∧ (∀ n u, demo_manga_urls !! n = Some u →
         ∃ md, out r !! n = Some (MsgUrl u md)
           ∧ md = page_record (merged demo_context demo_manga demo_names) n u
           ∧ md !! "num" = Some (VStr ("_p" +:+ format_02 n))
           ∧ md !! "extension" = Some (VStr (rpartition_tail "." u)))
    ∧ (∀ n, (2 ≤ String.length (format_02 n))%nat
            ∧ ((n < 100)%nat → String.length (format_02 n) = 2%nat)
            ∧ ((n < 10)%nat → format_02 n = "0" +:+ pretty n)
            ∧ ((10 ≤ n)%nat → format_02 n = pretty n)).
Proof.
  eapply (pages_suffixes true demo_context demo_manga _ _ _ demo_api
            (VStr "manga") 3 _ demo_manga_urls
            demo_manga_raw demo_context_policy).
  - vm_compute; reflexivity.
  - reflexivity.
  - vm_compute; reflexivity.
  - lia.
  - reflexivity.
  - repeat constructor.
  - reflexivity.
Defined.

(** C9, as the specification words it, fails: resolving the work has
    changed the fetched record. *)
Lemma resolve_mutates_work :
  work (resolve true demo_context demo_single demo_api).1 ≠ demo_single
  ∧ work (resolve true demo_context demo_single demo_api).1
      !! "meta_pages" = None
  ∧ demo_single !! "meta_pages" = Some (VList [])
  ∧ work (resolve true demo_context demo_single demo_api).1
      !! "extension" = Some (VStr "png")
  ∧ demo_single !! "extension" = None.
Proof.
  rewrite demo_single_resolve. cbn [fst work].
  split; [|repeat split; vm_compute; reflexivity].
  intros H. apply (f_equal (λ d : dict, d !! "extension")) in H.
  vm_compute in H. discriminate.
Qed.

Lemma resolve_work_after_witness :
  let w' := work (resolve true demo_context demo_single demo_api).1 in
  same_but_computed (merged demo_context demo_single demo_names) w'
  ∧ (∀ k, k = "meta_single_page" ∨ k = "image_urls" ∨ k = "meta_pages" →
          demo_context !! k = None → w' !! k = None)
  ∧ (demo_context !! "tags" = None → w' !! "tags" = Some (VList demo_names)).
Proof.
  exact (proj2 (resolve_work_after true demo_context demo_single demo_api)
           _ _ _ demo_single_raw).
Defined.

(** C7, as the specification words it, fails: for [weekly_r18] the
    request carries [week_r18] but the context keeps [weekly_r18], and
    for an unknown mode the request carries [day], not [daily].  Both
    modes are ASCII in lower case, which [str.lower] leaves as they
    are. *)
Lemma ranking_context_keeps_mode_name :
  (∃ self log,
     __init__ (U := demo_unicode) "2026-11-02"
       (<["mode" := "weekly_r18"]> ∅) [] = (log, Ok self)
     ∧ mode self = "week_r18"
     ∧ ranking_info self !! "mode" = Some (VStr "weekly_r18")
     ∧ ranking_info self !! "mode" ≠ Some (VStr (mode self)))
  ∧ (∃ self log,
       __init__ (U := demo_unicode) "2026-11-02"
         (<["mode" := "bogus"]> ∅) [] = (log, Ok self)
       ∧ log = [EvLogWarning "invalid mode 'bogus'"]
       ∧ mode self = "day"
       ∧ mode self ≠ "daily"
       ∧ ranking_info self !! "mode" = Some (VStr "daily")).
Proof.
  split.
  - eexists _, _. split; [vm_compute; reflexivity|].
    split; [reflexivity|]. split; [vm_compute; reflexivity|].
    intros H. vm_compute in H. discriminate.
  - eexists _, _. split; [vm_compute; reflexivity|].
    split; [reflexivity|]. split; [reflexivity|].
    split; [intros H; vm_compute in H; discriminate|].
    vm_compute; reflexivity.
Qed.

Lemma ranking_mode_mapping_witness :
  ∃ self log',
    __init__ (U := demo_unicode) "2026-11-02"
      (<["mode" := "Weekly_R18"]> ∅) [] = (log', Ok self)
    ∧ mode self = "week_r18"
    ∧ ranking_info self !! "mode" = Some (VStr "weekly_r18").
Proof.
  destruct (ranking_mode_mapping (U := demo_unicode) "2026-11-02"
              (<["mode" := "Weekly_R18"]> ∅) [])
    as (self & log' & Hinit & Hsome & _).
  exists self, log'. split; [exact Hinit|].
  destruct (Hsome "week_r18" ltac:(vm_compute; reflexivity)) as (H1 & H2 & _).
  split; [exact H1|exact H2].
Defined.

Lemma ranking_date_default_witness :
  ∃ self log',
    __init__ (U := demo_unicode) "2026-11-02"
      (<["date" := "20170818"]> ∅) [] = (log', Ok self)
    ∧ date self = "2017-08-18"
    ∧ log' = [].
Proof.
  destruct (ranking_date_default (U := demo_unicode) "2026-11-02"
              (<["date" := "20170818"]> ∅) [] "20170818")
    as (self & log' & Hinit & _ & Hgood & _ & Hex & _);
    [vm_compute; reflexivity|discriminate|].
  exists self, log'. split; [exact Hinit|].
  split; [exact (Hex demo_unicode_laws eq_refl)|].
  by destruct (Hgood "2" "0" "1" "7" "0" "8" "1" "8"
                 ltac:(vm_compute; reflexivity) ltac:(repeat constructor))
    as [_ ->].
Defined.

(** The same two lines on text that is not ASCII: a mode spelt with the
    Kelvin sign is [weekly] once in lower case, and a date in fullwidth
    digits is eight decimal digits, so neither is reported and the date
    is hyphenated as it stands. *)
Lemma ranking_beyond_ascii :
  ∃ self,
    __init__ (U := demo_unicode) "2026-11-02"
      (<["mode" := kelvin_weekly]> (<["date" := fullwidth_20170818]> ∅)) []
    = ([], Ok self)
    ∧ mode self = "week"
    ∧ ranking_info self !! "mode" = Some (VStr "weekly")
    ∧ chars (date self)
      = [utf8 [239; 188; 146]; utf8 [239; 188; 144]; utf8 [239; 188; 145];
         utf8 [239; 188; 151]; "-"; utf8 [239; 188; 144];
         utf8 [239; 188; 152]; "-"; utf8 [239; 188; 145];
         utf8 [239; 188; 152]]%nat.
Proof.
  eexists. split; [vm_compute; reflexivity|].
  split; [reflexivity|]. split; vm_compute; reflexivity.
Qed.

Lemma call_protocol_witness :
  ∃ a1 r1, login demo_api = (a1, r1) ∧
    trace a1 = (trace demo_api ++ [EvLogin (username demo_api)])%list ∧
    match r1 with
    | Raise e => _call "v1/user/detail" ∅ demo_api = (a1, Raise e)
    | Ok _ =>
        ∃ a2 r2,
          get ("https://app-api.pixiv.net/" +:+ "v1/user/detail") ∅ a1
          = (a2, r2) ∧
          trace a2
          = (trace demo_api ++
             [EvLogin (username demo_api);
              EvGet ("https://app-api.pixiv.net/" +:+ "v1/user/detail") ∅])%list ∧
          match r2 with
          | Raise e => _call "v1/user/detail" ∅ demo_api = (a2, Raise e)
          | Ok resp =>
              ((200 ≤ status_code resp < 400)%Z →
               _call "v1/user/detail" ∅ demo_api = (a2, json resp))
              ∧ (status_code resp = 404%Z →
                 _call "v1/user/detail" ∅ demo_api
                 = (a2, Raise (NotFoundError "")))
              ∧ (¬ (200 ≤ status_code resp < 400)%Z →
                 status_code resp ≠ 404%Z →
                 ∃ a3, _call "v1/user/detail" ∅ demo_api
                       = (a3, Raise StopExtraction)
                   ∧ world a3 = world a2
                   ∧ trace a3
                     = (trace demo_api ++
                        [EvLogin (username demo_api);
                         EvGet ("https://app-api.pixiv.net/"
                                +:+ "v1/user/detail") ∅;
                         EvLogError
                           ("API request failed: " +:+ text resp)])%list)
          end
    end.
Proof. exact (call_protocol "v1/user/detail" ∅ demo_api). Defined.

Lemma pagination_exhausts_iff_witness :
  ∃ pages,
    paged "v1/illust/ranking" ∅ demo_api pages
      (_pagination 2 "v1/illust/ranking" ∅ demo_api).1
    ∧ [VDict demo_single; VDict demo_manga; VDict demo_anim] = concat pages.
Proof.
  apply (proj1 (pagination_exhausts_iff "v1/illust/ranking" ∅ demo_api _ _)).
  exists 2%nat. vm_compute. reflexivity.
Defined.

(** * Further properties *)

(** ** Suffixes and extensions *)

Lemma pretty_N_go_head x s :
  (0 < x)%N → ∃ c t, pretty_N_go x s = String c t ∧ c ≠ "0"%char.
Proof.
  revert s. induction (N.lt_wf_0 x) as [x _ IH]; intros s Hx.
  rewrite pretty_N_go_step by done.
  destruct (decide (x `div` 10 = 0)%N) as [H0|H0].
  - rewrite H0, pretty_N_go_0. eexists _, _. split; [done|].
    apply N.div_small_iff in H0; [|done].
    rewrite N.mod_small by done.
    assert (x = 1 ∨ x = 2 ∨ x = 3 ∨ x = 4 ∨ x = 5 ∨ x = 6
            ∨ x = 7 ∨ x = 8 ∨ x = 9)%N as Hc by lia.
    destruct Hc as [->|[->|[->|[->|[->|[->|[->|[->| ->]]]]]]]]; done.
  - apply IH; [apply N.div_lt; lia|by apply N.neq_0_lt_0].
Qed.

Lemma format_02_inj n m : format_02 n = format_02 m → n = m.
Proof.
  assert (Hhead : ∀ k, (10 ≤ k)%nat →
            ∃ c t, pretty k = String c t ∧ c ≠ "0"%char).
  { intros k Hk. unfold pretty, pretty_nat, pretty, pretty_N.
    case_decide; [lia|]. apply pretty_N_go_head. lia. }
  unfold format_02.
  destruct (n <? 10)%nat eqn:Hn, (m <? 10)%nat eqn:Hm.
  - intros [= H]. by apply (inj pretty).
  - apply Nat.ltb_ge in Hm. destruct (Hhead m Hm) as (c & t & -> & Hc).
    intros [= H _]. by destruct Hc.
  - apply Nat.ltb_ge in Hn. destruct (Hhead n Hn) as (c & t & -> & Hc).
    intros [= H _]. by destruct Hc.
  - by apply (inj pretty).
Qed.

(** X1: two different pages never get the same [num]: the suffix of a
    page tells its index. *)
Theorem page_suffix_distinct w w' n m u u' :
  n ≠ m → page_record w n u !! "num" ≠ page_record w' m u' !! "num".
Proof.
  assert (Hnum : ∀ d k v, page_record d k v !! "num"
                         = Some (VStr ("_p" +:+ format_02 k))).
  { intros d k v. unfold page_record.
    by rewrite lookup_insert_ne, lookup_insert_eq. }
  rewrite !Hnum. intros Hne [= H]. by apply Hne, format_02_inj.
Qed.

Lemma rpartition_tail_cases c s :
  (∃ pre, s = pre +:+ String c (rpartition_tail c s)
          ∧ mem_char c (rpartition_tail c s) = false)
  ∨ (mem_char c s = false ∧ rpartition_tail c s = s).
Proof.
  destruct (mem_char c s) eqn:Hs.
  - left. by apply rpartition_tail_split.
  - right. split; [done|]. by apply rpartition_tail_absent.
Qed.

Section extractor_more.
Context {T : Transport}.

(** X2: the extension of an image descriptor is what follows the last
    dot of its address, and holds no dot; an address without any dot is
    its own extension.  This holds for the one descriptor of a
    single-image work and for every page of a multi-image work. *)
Theorem extension_follows_last_dot load metadata w msp pages names
      (a : api) ty pc :
  raw_work w msp pages names →
  policy_context metadata →
  w !! "type" = Some ty → eq_str ty "ugoira" = false →
  w !! "page_count" = Some pc →
  let follows (u : string) (md : dict) :=
    ∃ e, md !! "extension" = Some (VStr e)
         ∧ ((∃ pre, u = pre +:+ "." +:+ e) ∧ mem_char "." e = false
            ∨ mem_char "." u = false ∧ e = u) in
  (eq_int pc 1 = true →
   ∀ u, getitem msp "original_image_url" = Ok (VStr u) →
     ∃ md, out (resolve load metadata w a).1 = [MsgUrl u md] ∧ follows u md)
  ∧ (eq_int pc 1 = false →
     ∀ imgs urls, py_iter pages = Ok imgs →
       Forall2 (λ img u, page_url img = Ok (VStr u)) imgs urls →
       ∀ n u, urls !! n = Some u →
         ∃ md, out (resolve load metadata w a).1 !! n = Some (MsgUrl u md)
               ∧ follows u md).
Proof.
  intros Hw Hc Hty Hne Hpc follows.
  assert (Hf : ∀ u (m : dict),
            follows u (<["extension" := VStr (rpartition_tail "." u)]> m)).
  { intros u m. exists (rpartition_tail "." u).
    rewrite lookup_insert_eq. split; [done|].
    destruct (rpartition_tail_cases "." u) as [[pre [Hpre Hno]]|[Hno Heq]].
    - left. split; [by exists pre|done].
    - right. by rewrite Heq. }
  unfold resolve. rewrite (items_work_prelude _ _ _ _ _ _ _ _ Hw).
  split.
  - intros H1 u Hu.
    rewrite (items_branch_single load msp _ ty pc u);
      cbn [work]; rewrite ?merged_field by auto; try done.
    cbn [fst out app]. eexists. split; [done|]. apply Hf.
  - intros H1 imgs urls Hi Hurls n u Hn.
    rewrite (items_branch_pages load msp _ ty pc pages imgs);
      cbn [work]; rewrite ?merged_field by auto; try done.
    rewrite (items_pages_run _ _ _ _ Hurls). cbn [fst out work app].
    eexists. split; [by apply pages_out_lookup_0|]. apply Hf.
Qed.

(** X3: an archive address that does not hold the marker
    [_ugoira600x600] is passed on as the server gave it. *)
Theorem ugoira_url_without_marker metadata w msp pages names (a a' : api)
      id ug zip u frames fds :
  raw_work w msp pages names →
  policy_context metadata →
  w !! "type" = Some (VStr "ugoira") →
  w !! "id" = Some id →
  ugoira_metadata id a = (a', Ok ug) →
  getitem ug "zip_urls" = Ok zip →
  getitem zip "medium" = Ok (VStr u) →
  getitem ug "frames" = Ok (VList frames) →
  Forall2 (λ frame fd, getitem frame "file" = Ok (VStr fd.1)
                       ∧ getitem frame "delay" = Ok (VInt fd.2))
          frames fds →
  contains "_ugoira600x600" u = false →
  ∃ md rest, out (resolve true metadata w a).1 = MsgUrl u md :: rest.
Proof.
  intros Hw Hc Hty Hid Hug Hz Hm Hf Hfr Hno. unfold resolve.
  rewrite (items_work_prelude _ _ _ _ _ _ _ _ Hw).
  erewrite items_branch_ugoira_on; eauto;
    try by rewrite merged_field by auto.
  cbn [fst out app]. unfold replace.
  rewrite (replace_scan_absent _ _ _ Hno). eauto.
Qed.

Lemma pages_work_last w n urls u :
  pages_work w n (urls ++ [u]) = page_record w (n + length urls) u.
Proof.
  revert w n. induction urls as [|u' urls IH]; intros w n.
  - cbn. by rewrite Nat.add_0_r.
  - cbn [app pages_work length]. rewrite IH, page_record_again.
    by rewrite Nat.add_succ_r.
Qed.

(** X4: the messages of a multi-image work all hand over the one work
    dictionary.  Once the loop is over that dictionary is the record of
    the last page, so a consumer that kept the messages reads the suffix
    and the extension of the last page in every one of them. *)
Theorem pages_share_the_work load metadata w msp pages names (a : api)
      ty pc imgs urls u :
  raw_work w msp pages names →
  policy_context metadata →
  w !! "type" = Some ty → eq_str ty "ugoira" = false →
  w !! "page_count" = Some pc → eq_int pc 1 = false →
  py_iter pages = Ok imgs →
  Forall2 (λ img u, page_url img = Ok (VStr u)) imgs (urls ++ [u]) →
  let r := (resolve load metadata w a).1 in
  work r = page_record (merged metadata w names) (length urls) u
  ∧ length (held_after r) = S (length urls)
  ∧ ∀ msg, msg ∈ held_after r →
      ∃ u', msg = MsgUrl u'
                    (page_record (merged metadata w names) (length urls) u).
Proof.
  intros Hw Hc Hty Hne Hpc H1 Hi Hurls. cbn zeta. unfold resolve.
  rewrite (items_work_prelude _ _ _ _ _ _ _ _ Hw).
  rewrite (items_branch_pages load msp _ ty pc pages imgs);
    cbn [work]; rewrite ?merged_field by auto; try done.
  rewrite (items_pages_run _ _ _ _ Hurls). cbn [fst out work app].
  rewrite pages_work_last. cbn [Nat.add]. split; [done|].
  unfold held_after. cbn [out work].
  split.
  { by rewrite length_fmap, pages_out_length, length_app, Nat.add_1_r. }
  intros msg (m & -> & Hm)%list_elem_of_fmap.
  clear -Hm. revert Hm.
  generalize (merged metadata w names) at 1. generalize 0%nat.
  induction (urls ++ [u])%list as [|u0 l IH]; intros n d Hm.
  - by apply elem_of_nil in Hm.
  - cbn in Hm. apply elem_of_cons in Hm as [->|Hm]; [eauto|].
    by apply IH in Hm.
Qed.

End extractor_more.

(** ** What the client sends *)

Section client_more.
Context {T : Transport}.

Lemma login_identity (a : api) :
  username (login a).1 = username a ∧ password (login a).1 = password a.
Proof.
  unfold login. cbn.
  by destruct (login_impl _ _ _) as [w [[user auth]|e]].
Qed.

Lemma call_block_weaken user url params params' block :
  (∀ k, k ≠ "offset" → params' !! k = params !! k) →
  call_block user url params' block → call_block user url params block.
Proof.
  intros Hp [->|(p & Hpk & Hb)]; [by left|].
  right. exists p. split; [|done].
  intros k Hk. by rewrite Hpk, Hp.
Qed.

(** One [_call]: the trace grows by one block, the identity stays. *)
Lemma call_trace endpoint params (a : api) :
  let a' := (_call endpoint params a).1 in
  username a' = username a ∧ password a' = password a
  ∧ ∃ block,
      trace a' = (trace a ++ block)%list
      ∧ call_block (username a) ("https://app-api.pixiv.net/" +:+ endpoint)
          params block.
Proof.
  cbn zeta. unfold _call. rewrite bind_run.
  destruct (login_identity a) as [Hu Hp].
  pose proof (login_trace a) as Ht.
  destruct (login a) as [a1 [[]|e]]; cbn [fst] in *.
  2:{ split; [done|]. split; [done|]. eexists. split; [done|]. by left. }
  rewrite bind_run.
  pose proof (get_trace ("https://app-api.pixiv.net/" +:+ endpoint)
                params a1) as Hg.
  assert (Hid : username (get ("https://app-api.pixiv.net/" +:+ endpoint)
                            params a1).1 = username a1
                ∧ password (get ("https://app-api.pixiv.net/" +:+ endpoint)
                              params a1).1 = password a1).
  { unfold get. cbn. by destruct (session_get _ _ _ _). }
  destruct (get _ params a1) as [a2 [resp|e]]; cbn [fst] in *.
  2:{ destruct Hid as [-> ->]. split; [done|]. split; [done|].
      eexists. rewrite Hg, Ht, <- app_assoc. split; [done|].
      right. exists params. split; [done|]. by left. }
  destruct Hid as [Hu2 Hp2].
  destruct ((200 <=? status_code resp)%Z && (status_code resp <? 400)%Z).
  { unfold lift. cbn [fst]. rewrite Hu2, Hp2. split; [done|]. split; [done|].
    eexists. rewrite Hg, Ht, <- app_assoc. split; [done|].
    right. exists params. split; [done|]. by left. }
  destruct (status_code resp =? 404)%Z.
  { unfold raise. cbn [fst]. rewrite Hu2, Hp2. split; [done|]. split; [done|].
    eexists. rewrite Hg, Ht, <- app_assoc. split; [done|].
    right. exists params. split; [done|]. by left. }
  rewrite bind_run. unfold record, modify, raise.
  cbn [fst username password trace]. rewrite Hu2, Hp2.
  split; [done|]. split; [done|].
  eexists. rewrite Hg, Ht, <- !app_assoc. split; [done|].
  right. exists params. split; [done|]. right. eauto.
Qed.

Lemma pagination_blocks fuel endpoint params (a : api) :
  let a' := (_pagination fuel endpoint params a).1 in
  username a' = username a ∧ password a' = password a
  ∧ ∃ blocks,
      trace a' = (trace a ++ concat blocks)%list
      ∧ (length blocks ≤ fuel)%nat
      ∧ Forall (call_block (username a)
                  ("https://app-api.pixiv.net/" +:+ endpoint) params) blocks.
Proof.
  cbn zeta. revert params a.
  induction fuel as [|fuel IH]; intros params a.
  { cbn. split; [done|]. split; [done|]. exists []. cbn.
    by rewrite app_nil_r. }
  rewrite pagination_unfold.
  destruct (call_trace endpoint params a) as (Hu & Hp & block & Ht & Hb).
  assert (Hone : ∀ a1 : api,
    username a1 = username a → password a1 = password a →
    trace a1 = (trace a ++ block)%list →
    username a1 = username a ∧ password a1 = password a
    ∧ ∃ blocks,
        trace a1 = (trace a ++ concat blocks)%list
        ∧ (length blocks ≤ S fuel)%nat
        ∧ Forall (call_block (username a)
                    ("https://app-api.pixiv.net/" +:+ endpoint) params)
            blocks).
  { intros a1 H1 H2 H3. split; [done|]. split; [done|].
    exists [block]. cbn. rewrite app_nil_r. split; [done|].
    split; [lia|]. by constructor. }
  destruct (_call endpoint params a) as [a1 [data|e]]; cbn [fst] in *;
    [|by apply Hone].
  destruct (getitem data "illusts") as [illusts|e]; [|by apply Hone].
  destruct (py_iter illusts) as [items|e]; [|by apply Hone].
  destruct (getitem data "next_url") as [next|e]; [|by apply Hone].
  destruct (negb (truthy next)); [by apply Hone|].
  destruct (str_method next) as [u|e]; [|by apply Hone].
  specialize (IH (<["offset" := VStr (rpartition_tail "=" u)]> params) a1).
  destruct (_pagination fuel _ _ a1) as [a2 [rest e]]. cbn [fst] in *.
  destruct IH as (Hu2 & Hp2 & blocks & Ht2 & Hlen & Hall).
  split; [congruence|]. split; [congruence|].
  exists (block :: blocks). cbn [concat length].
  rewrite Ht2, Ht, <- app_assoc. split; [done|]. split; [lia|].
  constructor; [done|].
  rewrite Hu in Hall. eapply Forall_impl; [exact Hall|].
  intros b. apply call_block_weaken.
  intros k Hk. by rewrite lookup_insert_ne.
Qed.

Lemma gets_of_app l1 l2 : gets_of (l1 ++ l2) = (gets_of l1 ++ gets_of l2)%list.
Proof. unfold gets_of. apply omap_app. Qed.

Lemma blocks_gets user url params blocks :
  Forall (call_block user url params) blocks →
  (length (gets_of (concat blocks)) ≤ length blocks)%nat
  ∧ ∀ url' p, (url', p) ∈ gets_of (concat blocks) →
      url' = url ∧ ∀ k, k ≠ "offset" → p !! k = params !! k.
Proof.
  induction 1 as [|block blocks Hb _ [IHlen IH]]; cbn [concat].
  { split; [done|]. intros ?? Hin. by apply elem_of_nil in Hin. }
  rewrite gets_of_app, length_app. cbn [length].
  destruct Hb as [->|(p & Hp & [->|[msg ->]])]; cbn.
  - split; [lia|]. done.
  - split; [lia|]. intros url' p' [[= -> ->]|Hin]%elem_of_cons; auto.
  - split; [lia|]. intros url' p' [[= -> ->]|Hin]%elem_of_cons; auto.
Qed.

(** X5: whatever the server answers, a pagination driven for [fuel]
    requests adds to the trace at most [fuel] blocks, each a login
    followed by at most one GET of the endpoint; every such GET carries
    the parameters the caller gave, but for [offset]. *)
Theorem pagination_protocol fuel endpoint params (a : api) :
  let url := "https://app-api.pixiv.net/" +:+ endpoint in
  let a' := (_pagination fuel endpoint params a).1 in
  ∃ blocks,
    trace a' = (trace a ++ concat blocks)%list
    ∧ (length blocks ≤ fuel)%nat
    ∧ Forall (call_block (username a) url params) blocks
    ∧ (length (gets_of (concat blocks)) ≤ fuel)%nat
    ∧ ∀ url' p, (url', p) ∈ gets_of (concat blocks) →
        url' = url ∧ ∀ k, k ≠ "offset" → p !! k = params !! k.
Proof.
  cbn zeta.
  destruct (pagination_blocks fuel endpoint params a)
    as (_ & _ & blocks & Ht & Hlen & Hall).
  destruct (blocks_gets _ _ _ _ Hall) as [Hg Hin].
  exists blocks. split; [done|]. split; [done|]. split; [done|].
  split; [lia|]. done.
Qed.

(** X6: every request of a ranking goes to [v1/illust/ranking] with the
    mode and the date of the extractor, and for an extractor made by
    [__init__] that mode is one of the API values of [modes]. *)
Theorem ranking_requests {U : Unicode} yesterday query log log' self fuel
    (a : api) :
  __init__ yesterday query log = (log', Ok self) →
  (∃ name, modes !! name = Some (mode self))
  ∧ ∃ l, trace (ranking_works fuel self a).1 = (trace a ++ l)%list
       ∧ ∀ url p, (url, p) ∈ gets_of l →
           url = "https://app-api.pixiv.net/v1/illust/ranking"
           ∧ p !! "mode" = Some (VStr (mode self))
           ∧ p !! "date" = Some (VStr (date self)).
Proof.
  intros Hinit. split.
  - destruct (init_run yesterday query log)
      as (nm & am & log1 & d & log2 & Hm & Hd & Hi).
    rewrite Hi in Hinit. injection Hinit as <- <-. cbn [mode].
    destruct (init_mode_run query log) as [Hsome Hnone].
    destruct (modes !! lower (default "daily" (query !! "mode")))
      as [m|] eqn:Hl.
    + rewrite (Hsome _ eq_refl) in Hm. injection Hm as <- <- <-. eauto.
    + rewrite (Hnone eq_refl) in Hm. injection Hm as <- <- <-.
      by exists "daily".
  - unfold ranking_works, illust_ranking.
    destruct (pagination_blocks fuel "v1/illust/ranking"
                (<["mode" := VStr (mode self)]>
                   (<["date" := VStr (date self)]> ∅)) a)
      as (_ & _ & blocks & Ht & _ & Hall).
    destruct (blocks_gets _ _ _ _ Hall) as [_ Hin].
    exists (concat blocks). split; [done|].
    intros url p Hp. destruct (Hin _ _ Hp) as [-> Hk].
    split; [done|]. rewrite !Hk by done.
    by rewrite lookup_insert_eq, lookup_insert_ne, lookup_insert_eq.
Qed.

(** X7: every request for the bookmarks of a user asks for the public
    ones of that user, and every request for the works of a user names
    that user. *)
Theorem user_requests fuel user_id extra (a : api) :
  (∃ l, trace (user_bookmarks_illust fuel user_id extra a).1
        = (trace a ++ l)%list
      ∧ ∀ url p, (url, p) ∈ gets_of l →
          url = "https://app-api.pixiv.net/v1/user/bookmarks/illust"
          ∧ p !! "user_id" = Some user_id
          ∧ p !! "restrict" = Some (VStr "public")
          ∧ p !! "tag" = Some extra)
  ∧ (∃ l, trace (user_illusts fuel user_id extra a).1 = (trace a ++ l)%list
        ∧ ∀ url p, (url, p) ∈ gets_of l →
            url = "https://app-api.pixiv.net/v1/user/illusts"
            ∧ p !! "user_id" = Some user_id
            ∧ p !! "type" = Some extra).
Proof.
  split.
  - unfold user_bookmarks_illust.
    destruct (pagination_blocks fuel "v1/user/bookmarks/illust"
                (<["user_id" := user_id]>
                   (<["restrict" := VStr "public"]> (<["tag" := extra]> ∅)))
                a) as (_ & _ & blocks & Ht & _ & Hall).
    destruct (blocks_gets _ _ _ _ Hall) as [_ Hin].
    exists (concat blocks). split; [done|].
    intros url p Hp. destruct (Hin _ _ Hp) as [-> Hk].
    split; [done|]. rewrite !Hk by done.
    by rewrite !lookup_insert; repeat case_decide.
  - unfold user_illusts.
    destruct (pagination_blocks fuel "v1/user/illusts"
                (<["user_id" := user_id]> (<["type" := extra]> ∅)) a)
      as (_ & _ & blocks & Ht & _ & Hall).
    destruct (blocks_gets _ _ _ _ Hall) as [_ Hin].
    exists (concat blocks). split; [done|].
    intros url p Hp. destruct (Hin _ _ Hp) as [-> Hk].
    split; [done|]. rewrite !Hk by done.
    by rewrite !lookup_insert; repeat case_decide.
Qed.

(** A [_call] that returns has logged in and sent one request, and has
    logged no error. *)
Lemma call_ok_trace endpoint params (a a' : api) data :
  _call endpoint params a = (a', Ok data) →
  trace a'
  = (trace a ++ [EvLogin (username a);
                 EvGet ("https://app-api.pixiv.net/" +:+ endpoint) params])%list.
Proof.
  unfold _call. rewrite bind_run.
  pose proof (login_trace a) as Ht.
  destruct (login a) as [a1 [[]|e]]; cbn [fst] in *; [|done].
  rewrite bind_run.
  pose proof (get_trace ("https://app-api.pixiv.net/" +:+ endpoint)
                params a1) as Hg.
  destruct (get _ params a1) as [a2 [resp|e]]; cbn [fst] in *; [|done].
  destruct ((200 <=? status_code resp)%Z && (status_code resp <? 400)%Z).
  { unfold lift. intros [= <- _]. by rewrite Hg, Ht, <- app_assoc. }
  destruct (status_code resp =? 404)%Z; [done|].
  rewrite bind_run. unfold record, modify, raise. done.
Qed.

(** X8: a pagination that runs to its end has sent one request per page
    and has logged no error: its trace is a login and a GET for each
    page, nothing else. *)
Theorem paged_one_request_per_page endpoint params (a a' : api) pages :
  paged endpoint params a pages a' →
  ∃ l, trace a' = (trace a ++ l)%list
     ∧ length (gets_of l) = length pages
     ∧ length l = (2 * length pages)%nat
     ∧ ∀ e, e ∈ l → ∀ msg, e ≠ EvLogError msg.
Proof.
  induction 1 as [params a a' data illusts items next Hc Hi Hit Hn Hf
                 |params a a1 a' data illusts items u offset rest
                    Hc Hi Hit Hn Hu Ho Hrest (l & Hl & Hg & Hlen & Herr)].
  - eexists. split; [by eapply call_ok_trace|]. cbn.
    split; [done|]. split; [done|].
    intros e [->|[->|[]%elem_of_nil]%elem_of_cons]%elem_of_cons; done.
  - apply call_ok_trace in Hc. rewrite Hc in Hl.
    exists ([EvLogin (username a);
             EvGet ("https://app-api.pixiv.net/" +:+ endpoint) params]
            ++ l)%list.
    rewrite Hl, <- app_assoc. split; [done|].
    rewrite gets_of_app, !length_app, Hg, Hlen.
    split; [done|]. split; [cbn; lia|].
    intros e [[->|[->|[]%elem_of_nil]%elem_of_cons]%elem_of_cons|He]%elem_of_app;
      try done.
    by apply Herr.
Qed.

(** X9: the request of a [_call] is sent with the [Authorization] the
    login just before it returned, which also becomes the [user_info];
    when that login fails nothing is sent and the headers and the
    [user_info] stay as they were. *)
Theorem call_sends_credential endpoint params (a : api) w :
  let url := "https://app-api.pixiv.net/" +:+ endpoint in
  (∀ user auth w' resp,
     login_impl (username a) (password a) (world a) = (w, Ok (user, auth)) →
     session_get url params (<["Authorization" := auth]> (headers a)) w
     = (w', Ok resp) →
     (200 ≤ status_code resp < 400)%Z →
     _call endpoint params a
     = ({| username := username a; password := password a;
           headers := <["Authorization" := auth]> (headers a);
           user_info := user; world := w';
           trace := (trace a ++ [EvLogin (username a);
                                 EvGet url params])%list |},
        json resp))
  ∧ (∀ e,
       login_impl (username a) (password a) (world a) = (w, Raise e) →
       _call endpoint params a
       = ({| username := username a; password := password a;
             headers := headers a; user_info := user_info a; world := w;
             trace := (trace a ++ [EvLogin (username a)])%list |},
          Raise e)).
Proof.
  cbn zeta. split.
  - intros user auth w' resp Hl Hg [H1 H2].
    unfold _call. rewrite bind_run. unfold login at 1. cbn.
    rewrite Hl. rewrite bind_run. unfold get at 1. cbn. rewrite Hg.
    apply Z.leb_le in H1. apply Z.ltb_lt in H2. rewrite H1, H2.
    cbn. by rewrite <- app_assoc.
  - intros e Hl. unfold _call. rewrite bind_run. unfold login at 1. cbn.
    by rewrite Hl.
Qed.

End client_more.

(** ** What resolving a work asks of the API, and what [items] sends *)

Section extractor_io.
Context {T : Transport}.

Ltac run_prim :=
  unfold work_set, work_update, with_work, yield_url, modify, lift;
  cbn beta iota delta [fst snd session work out].

Ltac run_step := rewrite bind_run; run_prim.

(** The three ways the body of the loop goes: it raises before the
    branch, it skips the work, or it reaches the branch over the merged
    record; the API client is as it was until then. *)
Lemma items_work_run_cases load metadata (a : api) w o
      (Q : run * result unit → Prop) :
  (∀ d e, Q ({| session := a; work := d; out := o |}, Raise e)) →
  Q ({| session := a; work := w; out := o |}, Ok tt) →
  (∀ msp pages names,
     raw_work w msp pages names →
     Q (items_branch load msp pages
          {| session := a; work := merged metadata w names; out := o |})) →
  Q (items_work load metadata {| session := a; work := w; out := o |}).
Proof.
  intros Hfail Hskip Hrun. unfold items_work.
  rewrite bind_run. unfold work_get at 1. cbn [work getitem].
  destruct (w !! "user") as [user|] eqn:Hu; [|by apply Hfail].
  run_step.
  destruct (getitem user "id") as [uid|e] eqn:Hid; [|by apply Hfail].
  destruct (truthy uid) eqn:Ht; [|by apply Hskip]. cbn [negb].
  rewrite bind_run. unfold work_get at 1. cbn [work getitem].
  destruct (w !! "meta_single_page") as [msp|] eqn:Hs; [|by apply Hfail].
  rewrite bind_run. unfold work_get at 1. cbn [work getitem].
  destruct (w !! "meta_pages") as [pages|] eqn:Hp; [|by apply Hfail].
  rewrite bind_run. unfold work_del at 1. cbn [work]. rewrite Hs.
  run_prim.
  rewrite bind_run. unfold work_del at 1. cbn [work].
  rewrite lookup_delete_ne by done.
  destruct (w !! "image_urls") as [iu|] eqn:Hi; [|by apply Hfail].
  run_prim.
  rewrite bind_run. unfold work_del at 1. cbn [work].
  rewrite !lookup_delete_ne, Hp by done.
  run_prim. run_step.
  rewrite bind_run. unfold work_get at 1. cbn [work getitem].
  rewrite lookup_insert_ne, !lookup_delete_ne by done.
  destruct (w !! "tags") as [tags|] eqn:Htg; [|by apply Hfail].
  run_step.
  destruct (py_iter tags ≫= mapM (λ tag, getitem tag "name"))
    as [names|e] eqn:Hn; [|by apply Hfail].
  run_step. run_step.
  apply (Hrun msp pages names). constructor; eauto 10.
Qed.

Lemma items_single_session msp (r : run) :
  session (items_single msp r).1 = session r.
Proof.
  unfold items_single. rewrite bind_run. unfold lift at 1.
  destruct (getitem msp "original_image_url") as [url|e]; [|done].
  rewrite bind_run. unfold lift at 1.
  by destruct (str_method url) as [u|e].
Qed.

Lemma items_pages_session n imgs (r : run) :
  session (items_pages n imgs r).1 = session r.
Proof.
  revert n r. induction imgs as [|img imgs IH]; intros n r; [done|].
  cbn [items_pages]. rewrite bind_run. unfold lift at 1.
  destruct (getitem img "image_urls" ≫= _) as [url|e]; [|done].
  run_step. run_step.
  destruct (str_method url) as [u|e]; [|done].
  run_step. run_step. by rewrite IH.
Qed.

Lemma items_ugoira_session (r : run) id :
  work r !! "id" = Some id →
  session (items_ugoira r).1 = (ugoira_metadata id (session r)).1.
Proof.
  intros Hid. destruct r as [a m o]. cbn [session work out] in *.
  unfold items_ugoira.
  rewrite bind_run. unfold work_get at 1. cbn [work getitem]. rewrite Hid.
  rewrite bind_run. unfold call_api at 1. cbn [session work out].
  destruct (ugoira_metadata id a) as [a' [ug|e]]; cbn [fst snd]; [|done].
  rewrite bind_run. unfold lift at 1.
  destruct (getitem ug "zip_urls") as [zip|e]; [|done].
  rewrite bind_run. unfold lift at 1.
  destruct (getitem zip "medium" ≫= str_method) as [u|e]; [|done].
  run_step. run_step. run_step.
  destruct (getitem ug "frames" ≫= py_iter) as [frames|e]; [|done].
  run_step.
  by destruct (mapM format_frame frames) as [lines|e].
Qed.

Lemma items_ugoira_raise (r : run) id a' e :
  work r !! "id" = Some id →
  ugoira_metadata id (session r) = (a', Raise e) →
  items_ugoira r
  = ({| session := a'; work := work r; out := out r |}, Raise e).
Proof.
  intros Hid Hug. unfold items_ugoira.
  rewrite bind_run. unfold work_get at 1. cbn [getitem]. rewrite Hid.
  rewrite bind_run. unfold call_api at 1. by rewrite Hug.
Qed.

Lemma items_branch_ugoira_on_eq msp pages (r : run) :
  work r !! "type" = Some (VStr "ugoira") →
  items_branch true msp pages r = items_ugoira r.
Proof.
  intros Hty. unfold items_branch. rewrite bind_run.
  unfold work_get at 1. cbn [getitem]. by rewrite Hty.
Qed.

Lemma merged_type metadata w names :
  merged metadata w names !! "type" = (metadata ∪ w) !! "type".
Proof.
  unfold merged, work_fields. rewrite !lookup_union.
  by rewrite !lookup_insert_ne, !lookup_delete_ne.
Qed.

(** X10: resolving a work sends nothing to the API unless the work is an
    animation and loading is on: with loading off, and for every work
    whose type (as the merged record has it) is not [ugoira], the client
    is left exactly as it was, whether the body returns or raises. *)
Theorem resolve_without_requests load metadata w (a : api) :
  (load = false → session (resolve load metadata w a).1 = a)
  ∧ (∀ ty, (metadata ∪ w) !! "type" = Some ty →
           eq_str ty "ugoira" = false →
           session (resolve load metadata w a).1 = a).
Proof.
  assert (Hbranch : ∀ msp pages (r : run),
            load = false
            ∨ (∃ ty, work r !! "type" = Some ty ∧ eq_str ty "ugoira" = false) →
            session (items_branch load msp pages r).1 = session r).
  { intros msp pages r Hcase. unfold items_branch.
    rewrite bind_run. unfold work_get at 1. cbn [getitem].
    destruct (work r !! "type") as [ty|] eqn:Hty; [|done].
    destruct (eq_str ty "ugoira") eqn:Hu.
    { destruct Hcase as [->|(ty' & [= <-] & Hne)]; [done|congruence]. }
    rewrite bind_run. unfold work_get at 1. cbn [getitem].
    destruct (work r !! "page_count") as [pc|]; [|done].
    destruct (eq_int pc 1); [apply items_single_session|].
    rewrite bind_run. unfold lift at 1.
    destruct (py_iter pages) as [imgs|e]; [|done].
    apply items_pages_session. }
  unfold resolve. split.
  - intros Hl. apply items_work_run_cases; try done.
    intros msp pages names _. rewrite Hbranch; [done|by left].
  - intros ty Hty Hne. apply items_work_run_cases; try done.
    intros msp pages names _. rewrite Hbranch; [done|].
    right. exists ty. cbn [work]. by rewrite merged_type.
Qed.

(** X11: an animation, with loading on, costs exactly the one call
    [ugoira_metadata] for the id of the work; when that call raises, the
    exception is the one of the resolver and no descriptor is yielded. *)
Theorem ugoira_one_call metadata w msp pages names (a : api) id :
  raw_work w msp pages names →
  policy_context metadata →
  w !! "type" = Some (VStr "ugoira") →
  w !! "id" = Some id →
  session (resolve true metadata w a).1 = (ugoira_metadata id a).1
  ∧ ∀ e, (ugoira_metadata id a).2 = Raise e →
      resolve true metadata w a
      = ({| session := (ugoira_metadata id a).1;
            work := merged metadata w names; out := [] |}, Raise e).
Proof.
  intros Hw Hc Hty Hid. unfold resolve.
  rewrite (items_work_prelude _ _ _ _ _ _ _ _ Hw).
  assert (Hmid : merged metadata w names !! "id" = Some id)
    by (by rewrite merged_field by auto).
  rewrite (items_branch_ugoira_on_eq msp pages
             {| session := a; work := merged metadata w names; out := [] |})
    by (cbn [work]; by rewrite merged_field by auto).
  split.
  - by apply (items_ugoira_session
                {| session := a; work := merged metadata w names;
                   out := [] |}).
  - intros e He.
    destruct (ugoira_metadata id a) as [a' r] eqn:Hug. cbn [fst snd] in *.
    subst r.
    by rewrite (items_ugoira_raise
                  {| session := a; work := merged metadata w names;
                     out := [] |} id a' e).
Qed.

End extractor_io.

(** ** The loop of [items] *)

Section items_facts.
Context {T : Transport}.

Lemma descriptor_record_named m url md :
  is_Some (m !! "num") → descriptor_record m md → named_url (MsgUrl url md).
Proof.
  intros Hnum [[e ->]|(e & n & ->)]; eexists url, _, e;
    (split; [done|]); rewrite lookup_insert_eq; (split; [done|]).
  - by rewrite lookup_insert_ne.
  - rewrite lookup_insert_ne, lookup_insert_eq by done. eauto.
Qed.

Lemma merged_num metadata w names :
  is_Some (merged metadata w names !! "num").
Proof.
  unfold merged, work_fields. rewrite lookup_union.
  rewrite lookup_insert_ne, lookup_insert_eq by done.
  destruct (metadata !! "num"); eauto.
Qed.

Lemma items_work_out load metadata (a : api) w sent :
  ∃ l, out (items_work load metadata
              {| session := a; work := w; out := sent |}).1
       = (sent ++ l)%list
     ∧ Forall named_url l.
Proof.
  apply items_work_cases.
  - intros r' ->. exists []. by rewrite app_nil_r.
  - intros msp pages names r' _ [_ (l & -> & Hall)].
    exists l. split; [done|].
    eapply Forall_impl; [exact Hall|].
    intros msg (url & md & -> & Hrec).
    eapply descriptor_record_named; [apply merged_num|done].
Qed.

Lemma items_loop_out load metadata works (a : api) sent :
  ∃ l, (items_loop load metadata works a sent).1.2 = (sent ++ l)%list
     ∧ Forall named_url l.
Proof.
  revert a sent. induction works as [|w works IH]; intros a sent.
  { exists []. cbn. by rewrite app_nil_r. }
  cbn [items_loop].
  destruct (items_work_out load metadata a w sent) as (l1 & Hl1 & Hall1).
  destruct (items_work load metadata _) as [r [[]|e]]; cbn [fst] in Hl1.
  - destruct (IH (session r) (out r)) as (l2 & Hl2 & Hall2).
    destruct (items_loop load metadata works _ _) as [[[a' ws] sent'] x].
    cbn [fst snd] in *. exists (l1 ++ l2)%list.
    rewrite Hl2, Hl1, <- app_assoc. split; [done|]. by apply Forall_app.
  - cbn [fst snd]. by exists l1.
Qed.

(** X12: whatever the works are and however the loop ends, [items] has
    sent the version, then the directory with the context, and after
    them only URL messages whose record has a string [extension] and a
    [num]. *)
Theorem items_messages load metadata works (a : api) :
  ∃ l, (items load metadata works a).1.2
       = MsgVersion 1 :: MsgDirectory metadata :: l
     ∧ Forall named_url l.
Proof.
  unfold items.
  destruct (items_loop_out load metadata works a
              [MsgVersion 1; MsgDirectory metadata]) as (l & Hl & Hall).
  exists l. by rewrite Hl.
Qed.

(** X13: a work whose owner has a falsy id is passed over: it is handed
    back as it came, nothing is sent for it, and the works after it are
    treated as if it had not been there. *)
Theorem items_loop_skips load metadata w works (a : api) sent user uid :
  w !! "user" = Some user →
  getitem user "id" = Ok uid →
  truthy uid = false →
  items_loop load metadata (w :: works) a sent
  = let '(a', ws, sent', x) := items_loop load metadata works a sent in
    (a', w :: ws, sent', x).
Proof.
  intros Hu Hid Ht. cbn [items_loop].
  by rewrite (items_work_skip load metadata
                {| session := a; work := w; out := sent |} user uid).
Qed.

End items_facts.

(** ** More on the ranking extractor *)

Section ranking_more.
Context {U : Unicode}.

Lemma date_check_false d :
  (len d =? 8)%nat && isdecimal d = false → ¬ eight_digits d.
Proof. intros H Hd%date_check. by rewrite Hd in H. Qed.

Lemma hyphenated_shaped d :
  eight_digits d → date_shaped (hyphenated d) = true.
Proof.
  intros [Hl Hall].
  pose proof (chars_characters d) as Hc. pose proof (chars_tail d) as Ht.
  destruct (chars d) as [|y1 [|y2 [|y3 [|y4 [|m1 [|m2 [|d1 [|d2 [|? ?]]]]]]]]]
    eqn:Hch; try done.
  rewrite (hyphenated_chars _ _ _ _ _ _ _ _ _ Hch).
  assert (y1 +:+ y2 +:+ y3 +:+ y4 +:+ "-" +:+ m1 +:+ m2 +:+ "-" +:+ d1 +:+ d2
          = str_join [y1; y2; y3; y4; "-"; m1; m2; "-"; d1; d2]) as ->.
  { cbn [str_join foldr]. by rewrite str_app_empty_r. }
  cbn [tail] in Ht. unfold date_shaped. rewrite chars_str_join.
  - repeat (apply Forall_cons in Hall as [-> Hall]). done.
  - repeat (apply Forall_cons in Hc as [? Hc]). by repeat constructor.
  - cbn [tail]. repeat (apply Forall_cons in Ht as [? Ht]).
    by repeat constructor.
Qed.

(** X14: [__init__] never raises, and it logs nothing exactly for an
    accepted query; it never logs more than two lines. *)
Theorem ranking_init_warnings yesterday query log :
  ∃ self log',
    __init__ yesterday query log = (log', Ok self)
    ∧ (log' = log ↔ query_accepted query)
    ∧ ∃ added, log' = (log ++ added)%list ∧ (length added ≤ 2)%nat.
Proof.
  destruct (init_run yesterday query log)
    as (nm & am & log1 & d & log2 & Hm & Hd & Hi).
  eexists _, log2. split; [exact Hi|].
  destruct (init_mode_run query log) as [Hsome Hnone].
  assert (Hdate : ∀ l,
    (query !! "date" = None ∨ query !! "date" = Some ""
     ∨ ∃ x, query !! "date" = Some x ∧ x ≠ "" ∧ eight_digits x) ∧
      (init_date yesterday query l).1 = l
    ∨ (∃ x, query !! "date" = Some x ∧ x ≠ ""
            ∧ ¬ eight_digits x
            ∧ (init_date yesterday query l).1
              = (l ++ [EvLogWarning ("invalid date '" +:+ x +:+ "'")])%list)).
  { intros l. destruct (query !! "date") as [x|] eqn:Hq.
    2:{ left. split; [by left|]. unfold init_date. by rewrite Hq. }
    destruct (decide (x = "")) as [->|Hx].
    { left. split; [by right; left|]. unfold init_date. by rewrite Hq. }
    rewrite (init_date_run _ _ _ _ Hq Hx).
    destruct ((len x =? 8)%nat && isdecimal x) eqn:Hok.
    - apply date_check in Hok.
      left. split; [|done]. right; right. by exists x.
    - apply date_check_false in Hok. right. by exists x. }
  unfold query_accepted.
  destruct (modes !! lower (default "daily" (query !! "mode")))
    as [m|] eqn:Hl.
  - rewrite (Hsome _ eq_refl) in Hm. injection Hm as <- <- <-.
    destruct (Hdate log) as [[Hq Hlog]|(x & Hq & Hx & Hbad & Hlog)];
      rewrite Hd in Hlog; cbn [fst] in Hlog; subst log2.
    + split.
      * split; [|done]. split; [eauto|].
        destruct Hq as [->|[->|(x & -> & _ & ?)]]; auto.
      * exists []. split; [by rewrite app_nil_r|cbn; lia].
    + split.
      * split.
        -- intros H. apply (f_equal length) in H.
           rewrite length_app in H. cbn in H. lia.
        -- intros [_ H]. rewrite Hq in H. by destruct H.
      * eexists. split; [done|]. cbn. lia.
  - rewrite (Hnone eq_refl) in Hm. injection Hm as <- <- <-.
    destruct (Hdate (log ++ [EvLogWarning
                ("invalid mode '"
                 +:+ lower (default "daily" (query !! "mode")) +:+ "'")])%list)
      as [[Hq Hlog]|(x & Hq & Hx & Hbad & Hlog)];
      rewrite Hd in Hlog; cbn [fst] in Hlog; subst log2.
    + split.
      * split.
        -- intros H. apply (f_equal length) in H.
           rewrite length_app in H. cbn in H. lia.
        -- intros [[? [=]] _].
      * eexists. split; [done|]. cbn. lia.
    + split.
      * split.
        -- intros H. apply (f_equal length) in H.
           rewrite !length_app in H. cbn in H. lia.
        -- intros [[? [=]] _].
      * eexists. rewrite <- app_assoc. split; [done|]. cbn. lia.
Qed.

(** X15: when the clock gives yesterday's date as [YYYY-MM-DD], ten
    characters that are decimal digits but for the two hyphens, the date
    of the extractor, which every request to the ranking carries, has
    that shape whatever the query holds. *)
Theorem ranking_date_shaped yesterday query log self log' :
  date_shaped yesterday = true →
  __init__ yesterday query log = (log', Ok self) →
  date_shaped (date self) = true.
Proof.
  intros Hy Hinit.
  destruct (init_run yesterday query log)
    as (nm & am & log1 & d & log2 & Hm & Hd & Hi).
  rewrite Hi in Hinit. injection Hinit as <- <-. cbn [date].
  destruct (query !! "date") as [x|] eqn:Hq.
  2:{ unfold init_date in Hd. rewrite Hq in Hd. by injection Hd as <- <-. }
  destruct (decide (x = "")) as [->|Hx].
  { unfold init_date in Hd. rewrite Hq in Hd. by injection Hd as <- <-. }
  rewrite (init_date_run _ _ _ _ Hq Hx) in Hd.
  destruct ((len x =? 8)%nat && isdecimal x) eqn:Hok.
  - apply date_check in Hok.
    injection Hd as <- <-. by apply hyphenated_shaped.
  - by injection Hd as <- <-.
Qed.

Context {L : UnicodeLaws U}.

(** X16: the mode of the query is read without regard to upper and lower
    case: a query and the same query with its mode in lower case give
    the same extractor and the same log, text in lower case being left
    as it is by [str.lower]. *)
Theorem ranking_mode_case yesterday query m log :
  __init__ yesterday (<["mode" := m]> query) log
  = __init__ yesterday (<["mode" := lower m]> query) log.
Proof.
  assert (Hm : ∀ l, init_mode (<["mode" := m]> query) l
                    = init_mode (<["mode" := lower m]> query) l).
  { intros l. unfold init_mode. rewrite !lookup_insert_eq.
    change (default "daily" (Some m)) with m.
    change (default "daily" (Some (lower m))) with (lower m).
    by rewrite lower_lower. }
  assert (Hd : ∀ l, init_date yesterday (<["mode" := m]> query) l
                    = init_date yesterday (<["mode" := lower m]> query) l).
  { intros l. unfold init_date. by rewrite !lookup_insert_ne. }
  unfold __init__. rewrite !bind_run, Hm.
  destruct (init_mode _ log) as [l1 [[nm am]|e]]; [|done].
  by rewrite !bind_run, Hd.
Qed.

End ranking_more.

(** ** The contexts of the extractors *)

Section contexts_facts.
Context {T : Transport}.

Lemma singleton_policy_context k v :
  k = "user" ∨ k = "user_bookmark" ∨ k = "ranking" →
  policy_context (<[k := v]> ∅).
Proof.
  intros Hk. unfold policy_context, context_keys.
  rewrite dom_insert_L, dom_empty_L. intros x Hx.
  apply elem_of_union in Hx as [->%elem_of_singleton|[]%elem_of_empty].
  rewrite !elem_of_union, !elem_of_singleton.
  destruct Hk as [->|[->| ->]]; auto.
Qed.

Lemma get_metadata_result user_id user (a a' : api) md :
  get_metadata user_id user a = (a', Ok md) →
  ∃ u, md = <["user" := u]> ∅
       ∧ (truthy user = true → u = user ∧ a' = a)
       ∧ (truthy user = false → user_detail user_id a = (a', Ok u)).
Proof.
  unfold get_metadata. rewrite bind_run.
  destruct (truthy user); cbn [negb].
  - intros [= <- <-]. eexists. split; [done|]. split; [done|]. done.
  - destruct (user_detail user_id a) as [a1 [u|e]]; [|done].
    intros [= <- <-]. eexists. split; [done|]. split; [done|]. done.
Qed.

Lemma favorite_get_metadata_result user_id user (a a' : api) u md :
  favorite_get_metadata user_id user a = (a', Ok (u, md)) →
  md = <["user_bookmark" := u]> ∅
  ∧ (truthy user = true → u = user ∧ a' = a)
  ∧ (truthy user = false → user_detail user_id a = (a', Ok u)).
Proof.
  unfold favorite_get_metadata. rewrite bind_run.
  destruct (truthy user).
  - intros [= <- <- <-]. done.
  - destruct (user_detail user_id a) as [a1 [u1|e]]; [|done].
    intros [= <- <- <-]. done.
Qed.

(** X17: every context a [get_metadata] returns has one key, and that
    key is [user], [user_bookmark] or [ranking]: it never hides the
    [type], [page_count] or [id] of a work. *)
Theorem contexts_are_policy_contexts :
  (∀ user_id user (a a' : api) md,
     get_metadata user_id user a = (a', Ok md) →
     policy_context md ∧ size md = 1%nat)
  ∧ (∀ illust_id (a a' : api) work md,
       work_get_metadata illust_id a = (a', Ok (work, md)) →
       policy_context md ∧ size md = 1%nat)
  ∧ (∀ user_id user (a a' : api) u md,
       favorite_get_metadata user_id user a = (a', Ok (u, md)) →
       policy_context md ∧ size md = 1%nat)
  ∧ (∀ (a a' : api) user_id u md,
       bookmark_get_metadata a = (a', Ok (user_id, u, md)) →
       policy_context md ∧ size md = 1%nat)
  ∧ (∀ self,
       policy_context (ranking_get_metadata self)
       ∧ size (ranking_get_metadata self) = 1%nat).
Proof.
  assert (Hone : ∀ k (v : value), size (<[k := v]> (∅ : dict)) = 1%nat).
  { intros k v. by rewrite map_size_insert_None, map_size_empty. }
  split; [|split; [|split; [|split]]].
  - intros user_id user a a' md (u & -> & _)%get_metadata_result.
    split; [apply singleton_policy_context; auto|apply Hone].
  - intros illust_id a a' work md. unfold work_get_metadata.
    rewrite bind_run.
    destruct (illust_detail illust_id a) as [a1 [w|e]]; [|done].
    rewrite bind_run. unfold lift at 1.
    destruct (getitem w "user") as [user|e]; [|done].
    rewrite bind_run.
    destruct (get_metadata (VInt (-1)) user a1) as [a2 [m|e]] eqn:Hg;
      [|done].
    intros [= <- <- <-].
    apply get_metadata_result in Hg as (u & -> & _).
    split; [apply singleton_policy_context; auto|apply Hone].
  - intros user_id user a a' u md [-> _]%favorite_get_metadata_result.
    split; [apply singleton_policy_context; auto|apply Hone].
  - intros a a' user_id u md. unfold bookmark_get_metadata.
    rewrite bind_run.
    destruct (login a) as [a1 [[]|e]]; [|done].
    rewrite bind_run. unfold gets at 1.
    rewrite bind_run. unfold lift at 1.
    destruct (getitem (user_info a1) "id") as [uid|e]; [|done].
    rewrite bind_run.
    destruct (favorite_get_metadata uid (user_info a1) a1)
      as [a2 [[u1 m]|e]] eqn:Hf; [|done].
    intros [= <- <- <- <-].
    apply favorite_get_metadata_result in Hf as [-> _].
    split; [apply singleton_policy_context; auto|apply Hone].
  - intros self. unfold ranking_get_metadata.
    split; [apply singleton_policy_context; auto|apply Hone].
Qed.

Lemma getitem_truthy v k x : getitem v k = Ok x → truthy v = true.
Proof.
  destruct v as [| | | | |d]; try done. cbn.
  destruct (d !! k) as [y|] eqn:Hk; [|done]. intros _.
  apply negb_true_iff, Nat.eqb_neq. intros H0.
  apply map_size_empty_iff in H0. subst d. by rewrite lookup_empty in Hk.
Qed.

(** X18: for the bookmarks of the own account, [get_metadata] costs one
    login and no request: the profile the login returned becomes the
    context and its [id] the user to ask the bookmarks of.  A login that
    fails, or a profile without [id], raises and yields no context. *)
Theorem bookmark_context_from_login (a : api) w :
  (∀ user auth uid,
     login_impl (username a) (password a) (world a) = (w, Ok (user, auth)) →
     getitem user "id" = Ok uid →
     bookmark_get_metadata a
     = ({| username := username a; password := password a;
           headers := <["Authorization" := auth]> (headers a);
           user_info := user; world := w;
           trace := (trace a ++ [EvLogin (username a)])%list |},
        Ok (uid, user, <["user_bookmark" := user]> ∅)))
  ∧ (∀ user auth e,
       login_impl (username a) (password a) (world a)
       = (w, Ok (user, auth)) →
       getitem user "id" = Raise e →
       bookmark_get_metadata a
       = ({| username := username a; password := password a;
             headers := <["Authorization" := auth]> (headers a);
             user_info := user; world := w;
             trace := (trace a ++ [EvLogin (username a)])%list |},
          Raise e))
  ∧ (∀ e,
       login_impl (username a) (password a) (world a) = (w, Raise e) →
       bookmark_get_metadata a
       = ({| username := username a; password := password a;
             headers := headers a; user_info := user_info a; world := w;
             trace := (trace a ++ [EvLogin (username a)])%list |},
          Raise e)).
Proof.
  split; [|split].
  - intros user auth uid Hl Hid. unfold bookmark_get_metadata.
    rewrite bind_run. unfold login at 1. cbn. rewrite Hl.
    rewrite bind_run. unfold gets at 1. cbn [user_info].
    rewrite bind_run. unfold lift at 1. rewrite Hid.
    rewrite bind_run. unfold favorite_get_metadata.
    rewrite bind_run, (getitem_truthy _ _ _ Hid). done.
  - intros user auth e Hl Hid. unfold bookmark_get_metadata.
    rewrite bind_run. unfold login at 1. cbn. rewrite Hl.
    rewrite bind_run. unfold gets at 1. cbn [user_info].
    rewrite bind_run. unfold lift at 1. by rewrite Hid.
  - intros e Hl. unfold bookmark_get_metadata.
    rewrite bind_run. unfold login at 1. cbn. by rewrite Hl.
Qed.

End contexts_facts.

(** ** The extractor of a single work *)

Section work_extractor_facts.
Context {T : Transport}.

Lemma work_get_metadata_user illust_id (a a1 : api) w user :
  illust_detail illust_id a = (a1, Ok (VDict w)) →
  w !! "user" = Some user →
  truthy user = true →
  work_get_metadata illust_id a = (a1, Ok (VDict w, <["user" := user]> ∅)).
Proof.
  intros Hd Hu Ht. unfold work_get_metadata.
  rewrite bind_run, Hd. rewrite bind_run. unfold lift at 1.
  cbn [getitem]. rewrite Hu. rewrite bind_run.
  unfold get_metadata. rewrite bind_run, Ht. done.
Qed.

(** X19: the extractor of a single work takes the owner of the fetched
    work as its context, without a second request, so that every
    descriptor it yields carries as [user] the owner the work came
    with. *)
Theorem work_extractor_keeps_owner illust_id (a a1 : api) w user :
  illust_detail illust_id a = (a1, Ok (VDict w)) →
  w !! "user" = Some user →
  truthy user = true →
  work_extractor_items illust_id a = items true (<["user" := user]> ∅) [w] a1
  ∧ ∀ url md, MsgUrl url md ∈ (work_extractor_items illust_id a).1.2 →
      md !! "user" = Some user.
Proof.
  intros Hd Hu Ht.
  assert (Heq : work_extractor_items illust_id a
                = items true (<["user" := user]> ∅) [w] a1).
  { unfold work_extractor_items.
    by rewrite (work_get_metadata_user _ _ _ _ _ Hd Hu Ht). }
  split; [done|]. rewrite Heq, items_one.
  intros url md.
  pose proof (items_work_cases true (<["user" := user]> ∅) a1 w
                [MsgVersion 1; MsgDirectory (<["user" := user]> ∅)]
                (λ r', MsgUrl url md ∈ out r' → md !! "user" = Some user))
    as Hcases.
  destruct (items_work true _ _) as [r x]. cbn [fst snd] in *.
  apply Hcases.
  - intros r' ->.
    intros [[=]|[[=]|[]%elem_of_nil]%elem_of_cons]%elem_of_cons.
  - intros msp pages names r' _ [_ (l & -> & Hall)].
    intros [[[=]|[[=]|[]%elem_of_nil]%elem_of_cons]%elem_of_cons
           |Hin]%elem_of_app.
    rewrite Forall_forall in Hall.
    destruct (Hall _ Hin) as (url' & md' & [= <- <-] & Hrec).
    assert (Hm : merged (<["user" := user]> ∅) w names !! "user"
                 = Some user).
    { unfold merged. apply lookup_union_Some_l. apply lookup_insert_eq. }
    destruct Hrec as [[e ->]|(e & n & ->)];
      by rewrite !lookup_insert_ne by done.
Qed.

(** X20: when the server answers the request for the work with 404, the
    extractor raises [NotFoundError] and has sent no message at all, not
    even the version. *)
Theorem work_extractor_not_found illust_id (a : api) w w' user auth resp :
  login_impl (username a) (password a) (world a) = (w, Ok (user, auth)) →
  session_get "https://app-api.pixiv.net/v1/illust/detail"
    (<["illust_id" := illust_id]> ∅)
    (<["Authorization" := auth]> (headers a)) w = (w', Ok resp) →
  status_code resp = 404%Z →
  work_extractor_items illust_id a
  = ({| username := username a; password := password a;
        headers := <["Authorization" := auth]> (headers a);
        user_info := user; world := w';
        trace := (trace a ++
                  [EvLogin (username a);
                   EvGet "https://app-api.pixiv.net/v1/illust/detail"
                     (<["illust_id" := illust_id]> ∅)])%list |},
     [], [], Raise (NotFoundError "")).
Proof.
  intros Hl Hg Hs.
  unfold work_extractor_items, work_get_metadata, illust_detail.
  rewrite !bind_run. unfold _call.
  change ("https://app-api.pixiv.net/" +:+ "v1/illust/detail")
    with "https://app-api.pixiv.net/v1/illust/detail".
  rewrite bind_run. unfold login at 1. cbn. rewrite Hl. rewrite bind_run.
  unfold get at 1. cbn. rewrite Hg, Hs. cbn. by rewrite <- app_assoc.
Qed.

End work_extractor_facts.

(** ** The tag filter *)

Section tags_facts.
Context {U : Unicode}.

Lemma mapM_lower_names tags names :
  Forall2 (λ tag n, getitem tag "name" = Ok (VStr n)) tags names →
  mapM (λ tag, name ← getitem tag "name";
               s ← str_method name;
               mret (lower s)) tags
  = Ok (lower <$> names).
Proof.
  induction 1 as [|tag n tags names Hname _ IH]; [done|].
  change (mapM ?f (tag :: tags))
    with (f tag ≫= λ y, mapM f tags ≫= λ k, mret (y :: k)).
  cbn beta. rewrite IH, Hname. done.
Qed.

Lemma tag_names_lower_names work tags names :
  getitem work "tags" = Ok (VList tags) →
  Forall2 (λ tag n, getitem tag "name" = Ok (VStr n)) tags names →
  tag_names_lower work = Ok (lower <$> names).
Proof.
  intros Ht Hn. unfold tag_names_lower. rewrite Ht.
  change (Ok (VList tags) ≫= ?f) with (f (VList tags)). cbn beta.
  change (py_iter (VList tags) ≫= ?f) with (f tags). cbn beta.
  by apply mapM_lower_names.
Qed.

(** X21: over works whose tags all have a name, the filter yields the
    works one of whose tag names, in lower case, is the tag asked for,
    in the order they came and nothing else; a work whose tags cannot be
    read ends the filter with the exception, after the works kept so
    far. *)
Theorem tagged_works_filter tag works namess :
  Forall2 (λ w ns, tag_names_lower w = Ok ns) works namess →
  _tagged_works tag works
  = ((filter (λ p, tag ∈ p.2) (zip works namess)).*1, Ok tt)
  ∧ ∀ bad e rest,
      tag_names_lower bad = Raise e →
      _tagged_works tag (works ++ bad :: rest)
      = ((filter (λ p, tag ∈ p.2) (zip works namess)).*1, Raise e).
Proof.
  induction 1 as [|w ns works namess Hw _ [IH1 IH2]].
  - split; [done|]. intros bad e rest Hbad. cbn. by rewrite Hbad.
  - split.
    + cbn [_tagged_works zip zip_with]. rewrite Hw, IH1.
      rewrite filter_cons. cbn [snd].
      destruct (decide (tag ∈ ns)) as [Hin|Hin].
      * by rewrite bool_decide_eq_true_2.
      * by rewrite bool_decide_eq_false_2.
    + intros bad e rest Hbad.
      cbn [_tagged_works zip zip_with app]. rewrite Hw, (IH2 _ _ _ Hbad).
      rewrite filter_cons. cbn [snd].
      destruct (decide (tag ∈ ns)) as [Hin|Hin].
      * by rewrite bool_decide_eq_true_2.
      * by rewrite bool_decide_eq_false_2.
Qed.

(** X22: the tag of the URL and the tags of a work are compared without
    regard to upper and lower case: with the tag [t] in the URL, a work
    is kept exactly when one of its tag names equals [t] once both are
    in lower case. *)
Theorem tag_filter_ignores_case t tag work tags names :
  user_tag (Some t) = Some tag →
  getitem work "tags" = Ok (VList tags) →
  Forall2 (λ tg n, getitem tg "name" = Ok (VStr n)) tags names →
  tag = lower t
  ∧ ((_tagged_works tag [work]).1 = [work]
     ↔ ∃ n, n ∈ names ∧ lower n = lower t)
  ∧ ((_tagged_works tag [work]).1 = []
     ↔ ¬ ∃ n, n ∈ names ∧ lower n = lower t).
Proof.
  intros Htag Ht Hn.
  assert (tag = lower t) as ->.
  { unfold user_tag in Htag. destruct (String.eqb t ""); by simplify_eq. }
  split; [done|].
  cbn [_tagged_works]. rewrite (tag_names_lower_names _ _ _ Ht Hn).
  assert (Hiff : lower t ∈ lower <$> names
                 ↔ ∃ n, n ∈ names ∧ lower n = lower t).
  { rewrite list_elem_of_fmap. split; intros (n & ? & ?); eauto. }
  destruct (decide (lower t ∈ lower <$> names)) as [Hin|Hin].
  - rewrite bool_decide_eq_true_2 by done. cbn [fst]. split.
    + split; [by intros _; apply Hiff|done].
    + split; [done|]. intros Hno. destruct Hno. by apply Hiff.
  - rewrite bool_decide_eq_false_2 by done. cbn [fst]. split.
    + split; [done|]. intros H%Hiff. done.
    + split; [|done]. intros _ H%Hiff. done.
Qed.

End tags_facts.

(** ** The profile shortlink and the login request *)

Section me_facts.
Context {U : Unicode} {L : UnicodeLaws U}.

Lemma lower_Location : lower "Location" = "location".
Proof. by rewrite lower_on_ascii. Qed.

(** X23: the extractor of a [pixiv.me] link sends one HEAD request.  On
    status 404 it raises [NotFoundError("user")] and sends no message;
    on any other status it sends the version and then queues the
    [Location] of the answer, which the headers hold as [location];
    without that header the version has already been sent when the
    [KeyError], which names the key in lower case, is raised. *)
Theorem me_items_outcomes {W : Type}
      (head : string → W → W * result head_response) account w w' resp :
  head ("https://pixiv.me/" +:+ account) w = (w', Ok resp) →
  (head_status resp = 404%Z →
   me_items head account w = (w', [], Raise (NotFoundError "user")))
  ∧ (head_status resp ≠ 404%Z →
     ∀ location, head_headers resp !! "location" = Some location →
       me_items head account w
       = (w', [MeVersion 1; MeQueue location ∅], Ok tt))
  ∧ (head_status resp ≠ 404%Z →
     head_headers resp !! "location" = None →
     me_items head account w
     = (w', [MeVersion 1], Raise (KeyError "location"))).
Proof.
  intros Hh. unfold me_items, headers_getitem. rewrite Hh, lower_Location.
  split; [|split].
  - intros ->. done.
  - intros Hs location Hloc. apply Z.eqb_neq in Hs. by rewrite Hs, Hloc.
  - intros Hs Hloc. apply Z.eqb_neq in Hs. by rewrite Hs, Hloc.
Qed.

End me_facts.

Lemma login_impl_outcomes {W : Type}
      (post : string → dict → W → W * result response)
      client_id client_secret user pass w w' resp :
  post "https://oauth.secure.pixiv.net/auth/token"
    (login_form client_id client_secret user pass) w = (w', Ok resp) →
  ((400 ≤ status_code resp)%Z →
   _login_impl post client_id client_secret user pass w
   = (w', Raise AuthenticationError))
  ∧ ((status_code resp < 400)%Z →
     ∀ body data profile token,
       json resp = Ok body →
       getitem body "response" = Ok data →
       getitem data "user" = Ok profile →
       getitem data "access_token" = Ok (VStr token) →
       _login_impl post client_id client_secret user pass w
       = (w', Ok (profile, "Bearer " +:+ token))).
Proof.
  intros Hp. unfold _login_impl. rewrite Hp. split.
  - intros Hs. apply Z.leb_le in Hs. by rewrite Hs.
  - intros Hs body data profile token Hj Hr Hu Ht.
    apply Z.leb_gt in Hs. rewrite Hs, Hj. cbn. rewrite Hr. cbn.
    rewrite Hu. cbn. by rewrite Ht.
Qed.

(** X24: a client without a cached credential logs in by one POST.  On a
    status from 400 on the login raises [AuthenticationError] and the
    headers and the profile stay as they were; below 400 the
    [Authorization] header becomes ["Bearer "] followed by the
    [access_token] of the answer and the profile its [user]. *)
Theorem login_sets_bearer {W : Type}
      (post : string → dict → W → W * result response)
      (get : string → dict → gmap string string → W → W * result response)
      client_id client_secret
      (a : @api (uncached post get client_id client_secret))
      (w' : @World (uncached post get client_id client_secret)) resp :
  post "https://oauth.secure.pixiv.net/auth/token"
    (login_form client_id client_secret (username a) (password a))
    (world a) = (w', Ok resp) →
  ((400 ≤ status_code resp)%Z →
   login a
   = ({| username := username a; password := password a;
         headers := headers a; user_info := user_info a; world := w';
         trace := (trace a ++ [EvLogin (username a)])%list |},
      Raise AuthenticationError))
  ∧ ((status_code resp < 400)%Z →
     ∀ body data profile token,
       json resp = Ok body →
       getitem body "response" = Ok data →
       getitem data "user" = Ok profile →
       getitem data "access_token" = Ok (VStr token) →
       login a
       = ({| username := username a; password := password a;
             headers := <["Authorization" := "Bearer " +:+ token]>
                          (headers a);
             user_info := profile; world := w';
             trace := (trace a ++ [EvLogin (username a)])%list |},
          Ok tt)).
Proof.
  intros Hp.
  destruct (login_impl_outcomes post client_id client_secret
              (username a) (password a) (world a) w' resp Hp)
    as [Hbad Hgood].
  split.
  - intros Hs. unfold login. cbn. by rewrite (Hbad Hs).
  - intros Hs body data profile token Hj Hr Hu Ht. unfold login. cbn.
    by rewrite (Hgood Hs body data profile token Hj Hr Hu Ht).
Qed.

(** ** The further properties on the scripted servers *)

Lemma page_suffix_distinct_witness :
  page_record ∅ 3 "a.png" !! "num" ≠ page_record ∅ 4 "b.jpg" !! "num".
Proof. apply (page_suffix_distinct ∅ ∅ 3 4 "a.png" "b.jpg"). lia. Defined.

Lemma extension_follows_last_dot_witness :
  ∃ md,
    out (resolve true demo_context demo_single demo_api).1
    = [MsgUrl "https://i.pximg.net/img-original/12345_p0.png" md]
    ∧ ∃ e, md !! "extension" = Some (VStr e)
        ∧ ((∃ pre, "https://i.pximg.net/img-original/12345_p0.png"
                   = pre +:+ "." +:+ e) ∧ mem_char "." e = false
           ∨ mem_char "." "https://i.pximg.net/img-original/12345_p0.png"
             = false
             ∧ e = "https://i.pximg.net/img-original/12345_p0.png").
Proof.
  refine (proj1 (extension_follows_last_dot true demo_context demo_single
                   _ _ _ demo_api (VStr "illust") (VInt 1)
                   demo_single_raw demo_context_policy _ _ _) _
            "https://i.pximg.net/img-original/12345_p0.png" _).
  - vm_compute; reflexivity.
  - reflexivity.
  - vm_compute; reflexivity.
  - reflexivity.
  - vm_compute; reflexivity.
Defined.

Lemma ugoira_url_without_marker_witness :
  ∃ md rest,
    out (resolve true demo_context demo_anim
           (fixed_api demo_plain_ugoira)).1
    = MsgUrl demo_plain_medium md :: rest.
Proof.
  eapply (ugoira_url_without_marker demo_context demo_anim _ _ _
            (fixed_api demo_plain_ugoira) _
            (VInt 66806629) _ _ demo_plain_medium demo_frames demo_delays
            demo_anim_raw demo_context_policy).
  - vm_compute; reflexivity.
  - vm_compute; reflexivity.
  - vm_compute; reflexivity.
  - vm_compute; reflexivity.
  - vm_compute; reflexivity.
  - vm_compute; reflexivity.
  - repeat constructor.
  - vm_compute; reflexivity.
Defined.

Lemma pages_share_the_work_witness :
  let r := (resolve true demo_context demo_manga demo_api).1 in
  work r
  = page_record (merged demo_context demo_manga demo_names) 2
      "https://i.pximg.net/img-original/777_p2.jpg"
  ∧ length (held_after r) = 3%nat
  ∧ ∀ msg, msg ∈ held_after r →
      ∃ u', msg = MsgUrl u'
                    (page_record (merged demo_context demo_manga demo_names)
                       2 "https://i.pximg.net/img-original/777_p2.jpg").
Proof.
  eapply (pages_share_the_work true demo_context demo_manga _ _ _ demo_api
            (VStr "manga") (VInt 3) _
            ["https://i.pximg.net/img-original/777_p0.jpg";
             "https://i.pximg.net/img-original/777_p1.png"]
            "https://i.pximg.net/img-original/777_p2.jpg"
            demo_manga_raw demo_context_policy).
  - vm_compute; reflexivity.
  - reflexivity.
  - vm_compute; reflexivity.
  - reflexivity.
  - reflexivity.
  - repeat constructor.
Defined.

Lemma ranking_requests_witness :
  (∃ name, modes !! name = Some "week")
  ∧ ∃ l, trace (ranking_works 2
                  {| mode := "week"; date := "2026-11-02";
                     ranking_info :=
                       <["mode" := VStr "weekly"]>
                         (<["date" := VStr "2026-11-02"]> ∅) |}
                  demo_api).1
         = (trace demo_api ++ l)%list
       ∧ ∀ url p, (url, p) ∈ gets_of l →
           url = "https://app-api.pixiv.net/v1/illust/ranking"
           ∧ p !! "mode" = Some (VStr "week")
           ∧ p !! "date" = Some (VStr "2026-11-02").
Proof.
  apply (ranking_requests (U := demo_unicode) "2026-11-02"
           (<["mode" := "weekly"]> ∅) [] []
           {| mode := "week"; date := "2026-11-02";
              ranking_info :=
                <["mode" := VStr "weekly"]>
                  (<["date" := VStr "2026-11-02"]> ∅) |} 2 demo_api).
  vm_compute. reflexivity.
Defined.

Lemma paged_one_request_per_page_witness :
  ∃ pages l,
    paged "v1/illust/ranking" ∅ demo_api pages
      (_pagination 2 "v1/illust/ranking" ∅ demo_api).1
    ∧ trace (_pagination 2 "v1/illust/ranking" ∅ demo_api).1
      = (trace demo_api ++ l)%list
    ∧ length (gets_of l) = length pages
    ∧ length l = (2 * length pages)%nat
    ∧ ∀ e, e ∈ l → ∀ msg, e ≠ EvLogError msg.
Proof.
  destruct (exhausts_paged 2 "v1/illust/ranking" ∅ demo_api
              (_pagination 2 "v1/illust/ranking" ∅ demo_api).1
              [VDict demo_single; VDict demo_manga; VDict demo_anim])
    as (pages & Hpaged & _); [vm_compute; reflexivity|].
  destruct (paged_one_request_per_page _ _ _ _ _ Hpaged)
    as (l & Hl & Hg & Hlen & Herr).
  by exists pages, l.
Defined.

Lemma call_sends_credential_witness :
  ∃ a', _call "v1/ugoira/metadata" ∅ demo_api = (a', Ok demo_ugoira)
        ∧ headers a' !! "Authorization" = Some "Bearer token".
Proof.
  destruct (call_sends_credential "v1/ugoira/metadata" ∅ demo_api 0%nat)
    as [Hok _].
  eexists.
  rewrite (Hok (obj [("id", VInt 11); ("account", VStr "someone")])
             "Bearer token" 1%nat (demo_response 200 demo_ugoira)).
  - split; [reflexivity|]. cbn [headers]. apply lookup_insert_eq.
  - reflexivity.
  - reflexivity.
  - cbn. lia.
Defined.

Lemma resolve_without_requests_witness :
  session (resolve false demo_context demo_anim demo_api).1 = demo_api
  ∧ session (resolve true demo_context demo_manga demo_api).1 = demo_api.
Proof.
  split.
  - by apply (proj1 (resolve_without_requests false demo_context demo_anim
                       demo_api)).
  - apply (proj2 (resolve_without_requests true demo_context demo_manga
                    demo_api) (VStr "manga")).
    + vm_compute; reflexivity.
    + reflexivity.
Defined.

Lemma ugoira_one_call_witness :
  session (resolve true demo_context demo_anim demo_api).1
  = (ugoira_metadata (VInt 66806629) demo_api).1
  ∧ ∀ e, (ugoira_metadata (VInt 66806629) demo_api).2 = Raise e →
      resolve true demo_context demo_anim demo_api
      = ({| session := (ugoira_metadata (VInt 66806629) demo_api).1;
            work := merged demo_context demo_anim demo_names; out := [] |},
         Raise e).
Proof.
  apply (ugoira_one_call demo_context demo_anim _ _ _ demo_api
           (VInt 66806629) demo_anim_raw demo_context_policy).
  - vm_compute; reflexivity.
  - vm_compute; reflexivity.
Defined.

Lemma items_loop_skips_witness :
  items_loop true demo_context [demo_orphan; demo_single] demo_api []
  = let '(a', ws, sent', x) :=
      items_loop true demo_context [demo_single] demo_api [] in
    (a', demo_orphan :: ws, sent', x).
Proof.
  apply (items_loop_skips true demo_context demo_orphan [demo_single]
           demo_api [] (obj [("id", VInt 0)]) (VInt 0)).
  - vm_compute; reflexivity.
  - vm_compute; reflexivity.
  - reflexivity.
Defined.

Lemma ranking_date_shaped_witness :
  date_shaped (U := demo_unicode) "2017-08-18" = true.
Proof.
  apply (ranking_date_shaped (U := demo_unicode) "2026-11-02"
           (<["date" := "20170818"]> ∅) []
           {| mode := "day"; date := "2017-08-18";
              ranking_info :=
                <["mode" := VStr "daily"]> (<["date" := VStr "2017-08-18"]> ∅) |}
           []).
  - reflexivity.
  - vm_compute. reflexivity.
Defined.

Lemma contexts_are_policy_contexts_witness :
  policy_context demo_context ∧ size demo_context = 1%nat.
Proof.
  apply (proj1 contexts_are_policy_contexts (VInt 11)
           (obj [("id", VInt 11); ("account", VStr "someone")])
           demo_api demo_api demo_context).
  vm_compute. reflexivity.
Defined.

Lemma bookmark_context_from_login_witness :
  ∃ a', bookmark_get_metadata demo_api
        = (a', Ok (VInt 11,
                   obj [("id", VInt 11); ("account", VStr "someone")],
                   <["user_bookmark" :=
                       obj [("id", VInt 11); ("account", VStr "someone")]]> ∅))
        ∧ gets_of (trace a') = [].
Proof.
  destruct (bookmark_context_from_login demo_api 0%nat) as [Hok _].
  eexists.
  rewrite (Hok (obj [("id", VInt 11); ("account", VStr "someone")])
             "Bearer token" (VInt 11)).
  - split; reflexivity.
  - reflexivity.
  - vm_compute; reflexivity.
Defined.

Lemma work_extractor_keeps_owner_witness :
  ∃ a1,
    work_extractor_items (VInt 12345) (fixed_api demo_detail)
    = items true
        (<["user" := obj [("id", VInt 11); ("name", VStr "artist")]]> ∅)
        [demo_single] a1
    ∧ ∀ url md,
        MsgUrl url md
        ∈ (work_extractor_items (VInt 12345) (fixed_api demo_detail)).1.2 →
        md !! "user" = Some (obj [("id", VInt 11); ("name", VStr "artist")]).
Proof.
  eexists.
  apply (work_extractor_keeps_owner (VInt 12345) (fixed_api demo_detail)
           _ demo_single).
  - vm_compute; reflexivity.
  - vm_compute; reflexivity.
  - reflexivity.
Defined.

Lemma work_extractor_not_found_witness :
  (work_extractor_items (VInt 966411) (fixed_api demo_missing)).2
  = Raise (NotFoundError "")
  ∧ (work_extractor_items (VInt 966411) (fixed_api demo_missing)).1.2 = [].
Proof.
  rewrite (work_extractor_not_found (VInt 966411) (fixed_api demo_missing)
             0%nat 1%nat
             (obj [("id", VInt 11); ("account", VStr "someone")])
             "Bearer token" demo_missing); try reflexivity.
  by split.
Defined.

Lemma tagged_works_filter_witness :
  _tagged_works (U := demo_unicode) "sky"
    [demo_tagged ["Sky"; "sea"]; demo_tagged ["land"]; demo_tagged ["SKY"]]
  = ([demo_tagged ["Sky"; "sea"]; demo_tagged ["SKY"]], Ok tt).
Proof.
  refine (eq_trans
            (proj1 (tagged_works_filter (U := demo_unicode) "sky"
                      [demo_tagged ["Sky"; "sea"]; demo_tagged ["land"];
                       demo_tagged ["SKY"]]
                      [["sky"; "sea"]; ["land"]; ["sky"]] _)) _).
  - repeat constructor.
  - vm_compute. reflexivity.
Defined.

Lemma tag_filter_ignores_case_witness :
  "sky" = demo_lower "SKY"
  ∧ ((_tagged_works (U := demo_unicode) "sky"
        [demo_tagged ["Sky"; "sea"]]).1
     = [demo_tagged ["Sky"; "sea"]]
     ↔ ∃ n, n ∈ ["Sky"; "sea"] ∧ demo_lower n = demo_lower "SKY")
  ∧ ((_tagged_works (U := demo_unicode) "sky"
        [demo_tagged ["Sky"; "sea"]]).1 = []
     ↔ ¬ ∃ n, n ∈ ["Sky"; "sea"] ∧ demo_lower n = demo_lower "SKY").
Proof.
  apply (tag_filter_ignores_case (U := demo_unicode) "SKY" "sky"
           (demo_tagged ["Sky"; "sea"])
           ((λ n, obj [("name", VStr n)]) <$> ["Sky"; "sea"])
           ["Sky"; "sea"]).
  - reflexivity.
  - vm_compute; reflexivity.
  - repeat constructor.
Defined.

Lemma me_items_outcomes_witness :
  me_items (U := demo_unicode) demo_head "del_shannon" 0%nat
  = (1%nat,
     [MeVersion 1; MeQueue "https://www.pixiv.net/member.php?id=1" ∅], Ok tt)
  ∧ me_items (U := demo_unicode) demo_head "del_shanno" 0%nat
    = (1%nat, [], Raise (NotFoundError "user")).
Proof.
  split.
  - apply (proj1 (proj2 (me_items_outcomes (L := demo_unicode_laws)
                           demo_head "del_shannon" 0%nat 1%nat _ eq_refl)));
      [done|reflexivity].
  - apply (proj1 (me_items_outcomes (L := demo_unicode_laws)
                    demo_head "del_shanno" 0%nat 1%nat _ eq_refl)).
    reflexivity.
Defined.

Lemma ranking_mode_case_witness :
  __init__ (U := demo_unicode) "2026-11-02" (<["mode" := "Weekly_R18"]> ∅) []
  = __init__ (U := demo_unicode) "2026-11-02"
      (<["mode" := "weekly_r18"]> ∅) [].
Proof.
  refine (eq_trans
            (ranking_mode_case (L := demo_unicode_laws) "2026-11-02" ∅
               "Weekly_R18" []) _).
  reflexivity.
Defined.

(** The filter on tags that are not ASCII: a work tagged in fullwidth
    capitals is kept for the same tag in fullwidth small letters, which
    is what [user_tag] makes of either spelling in the URL. *)
Lemma tag_filter_beyond_ascii :
  user_tag (U := demo_unicode) (Some fullwidth_FATE) = Some fullwidth_fate
  ∧ _tagged_works (U := demo_unicode) fullwidth_fate
      [demo_tagged [fullwidth_FATE]; demo_tagged ["fate"]]
    = ([demo_tagged [fullwidth_FATE]], Ok tt).
Proof. split; vm_compute; reflexivity. Qed.

Lemma login_sets_bearer_witness :
  ∃ a', login demo_uncached_api = (a', Ok tt)
        ∧ headers a' !! "Authorization" = Some "Bearer abc"
        ∧ user_info a' = obj [("id", VInt 11)].
Proof.
  destruct (login_sets_bearer demo_post demo_get "id" "secret"
              demo_uncached_api 1%nat demo_token eq_refl) as [_ Hok].
  eexists. split; [|split].
  - eapply (Hok ltac:(cbn; lia)); [reflexivity|vm_compute; reflexivity..].
  - cbn [headers]. apply lookup_insert_eq.
  - reflexivity.
Defined.
